(** * Verification of aura-smartwallet-backend services

    Shallow embedding of [src/services/riskAnalyzer.js],
    [src/services/cacheService.js] and [src/services/alertService.js].

    JavaScript numbers are modelled by [number]: a finite value is an exact
    rational (IEEE rounding is not modelled), and [NaN] and the infinities
    are explicit, so that a division by zero gives what JavaScript gives. *)

From Stdlib Require Import QArith Qround Lqa ZArith Lia Bool Ascii String List.
From Stdlib Require Import Sorted Permutation.
From stdpp Require Import base gmap strings list.
Import ListNotations.

Open Scope Q_scope.

(* ================================================================== *)
(** ** JavaScript values *)

Inductive number :=
| Fin (q : Q)
| NaN
| Inf (pos : bool).

(** [a + b] *)
Definition num_add (x y : number) : number :=
  match x, y with
  | Fin a, Fin b => Fin (a + b)
  | NaN, _ | _, NaN => NaN
  | Inf p, Inf p' => if Bool.eqb p p' then Inf p else NaN
  | Inf p, Fin _ | Fin _, Inf p => Inf p
  end.

(** [a * b] *)
Definition num_mul (x y : number) : number :=
  match x, y with
  | Fin a, Fin b => Fin (a * b)
  | NaN, _ | _, NaN => NaN
  | Inf p, Fin b | Fin b, Inf p =>
      if Qeq_bool b 0 then NaN else Inf (Bool.eqb p (negb (Qle_bool b 0)))
  | Inf p, Inf p' => Inf (Bool.eqb p p')
  end.

(** [a / b]; the sign of a zero is not tracked: [x / 0] is [+Infinity] for
    [x > 0], [-Infinity] for [x < 0] and [NaN] for [x = 0]. *)
Definition num_div (x y : number) : number :=
  match x, y with
  | Fin a, Fin b =>
      if Qeq_bool b 0 then
        (if Qeq_bool a 0 then NaN else Inf (negb (Qle_bool a 0)))
      else Fin (a / b)
  | NaN, _ | _, NaN => NaN
  | Fin _, Inf _ => Fin 0
  | Inf p, Fin b =>
      if Qeq_bool b 0 then Inf p else Inf (Bool.eqb p (negb (Qle_bool b 0)))
  | Inf _, Inf _ => NaN
  end.

(** [a < b]: every comparison with [NaN] is false. *)
Definition num_lt (x y : number) : bool :=
  match x, y with
  | Fin a, Fin b => negb (Qle_bool b a)
  | Fin _, Inf p => p
  | Inf p, Fin _ => negb p
  | Inf p, Inf p' => negb p && p'
  | _, _ => false
  end.

(** [a > b] *)
Definition num_gt (x y : number) : bool := num_lt y x.

(** [a >= b] *)
Definition num_ge (x y : number) : bool :=
  match x, y with
  | NaN, _ | _, NaN => false
  | _, _ => negb (num_lt x y)
  end.

(** [Math.round] rounds half up: [Math.floor(x + 0.5)]. *)
Definition Math_round (x : number) : number :=
  match x with
  | Fin q => Fin (inject_Z (Qfloor (q + (1 # 2))))
  | _ => x
  end.

(** A JavaScript value; an object is known by its reference only. *)
Inductive jsval :=
| JUndefined
| JNull
| JBool (b : bool)
| JNumber (n : number)
| JString (s : string)
| JObject (ref : nat).

Definition truthy (v : jsval) : bool :=
  match v with
  | JUndefined | JNull => false
  | JBool b => b
  | JNumber (Fin q) => negb (Qeq_bool q 0)
  | JNumber NaN => false
  | JNumber (Inf _) => true
  | JString s => negb (String.eqb s "")
  | JObject _ => true
  end.

(** [String.prototype.toUpperCase] / [toLowerCase] on ASCII text. *)
Definition ascii_upper (c : ascii) : ascii :=
  let n := nat_of_ascii c in
  if (97 <=? n)%nat && (n <=? 122)%nat then ascii_of_nat (n - 32) else c.

Definition ascii_lower (c : ascii) : ascii :=
  let n := nat_of_ascii c in
  if (65 <=? n)%nat && (n <=? 90)%nat then ascii_of_nat (n + 32) else c.

Fixpoint toUpperCase (s : string) : string :=
  match s with
  | EmptyString => EmptyString
  | String c s' => String (ascii_upper c) (toUpperCase s')
  end.

Fixpoint toLowerCase (s : string) : string :=
  match s with
  | EmptyString => EmptyString
  | String c s' => String (ascii_lower c) (toLowerCase s')
  end.

(** [Array.prototype.includes] on strings. *)
Definition includes (l : list string) (x : string) : bool :=
  existsb (String.eqb x) l.

(** [String.prototype.startsWith] *)
Definition startsWith (s prefix : string) : bool := String.prefix prefix s.

(* ================================================================== *)
(** ** riskAnalyzer.js *)

(** A token holding as returned by [AuraService.getTokenBalances]. *)
Record token := mkToken {
  symbol : string;
  balance : Q;
  valueUSD : Q
}.

(** The risk level strings ['LOW'], ['MEDIUM'], ['HIGH'], ['CRITICAL']. *)
Inductive level := LOW | MEDIUM | HIGH | CRITICAL.

(** [getRiskLevel(score)] *)
Definition getRiskLevel (score : number) : level :=
  if num_ge score (Fin 75) then CRITICAL
  else if num_ge score (Fin 50) then HIGH
  else if num_ge score (Fin 25) then MEDIUM
  else LOW.

Definition getStablecoins : list string :=
  ["USDC"; "USDT"; "DAI"; "BUSD"; "TUSD"; "FRAX"].

Definition getBluechips : list string :=
  ["BTC"; "ETH"; "BNB"; "SOL"; "MATIC"; "AVAX"; "LINK"; "AURA"].

Definition isStablecoin (s : string) : bool :=
  includes ["USDC"; "USDT"; "DAI"; "BUSD"; "TUSD"; "FRAX"] (toUpperCase s).

Definition isBluechip (s : string) : bool :=
  includes ["BTC"; "ETH"; "BNB"; "SOL"; "MATIC"; "AVAX"; "LINK"; "AURA"]
    (toUpperCase s).

Definition isMemecoin (s : string) : bool :=
  includes ["DOGE"; "SHIB"; "PEPE"; "FLOKI"; "BONK"] (toUpperCase s).

Definition isLowLiquidityToken (s : string) : bool :=
  let knownLiquid := getStablecoins ++ getBluechips in
  negb (includes knownLiquid (toUpperCase s)).

(** [isKnownContract(address)]: the list holds the placeholder ['0x...']
    twice. *)
Definition knownContracts : list string := ["0x..."; "0x..."].

Definition isKnownContract (address : string) : bool :=
  existsb (fun known => startsWith (toLowerCase address) (toLowerCase known))
    knownContracts.

(** [tokens.reduce((sum, t) => sum + t.valueUSD, 0)] *)
Definition totalValueOf (tokens : list token) : number :=
  fold_left (fun sum t => num_add sum (Fin (valueUSD t))) tokens (Fin 0).

(** *** calculateDiversificationRisk *)
Record diversificationRisk := {
  div_score : number;
  div_tokenCount : nat
}.

Definition calculateDiversificationRisk (tokens : list token)
  : diversificationRisk :=
  let tokenCount := length tokens in
  let score :=
    if (tokenCount =? 1)%nat then 25
    else if (tokenCount =? 2)%nat then 20
    else if (tokenCount <=? 5)%nat then 12
    else if (tokenCount <=? 10)%nat then 5
    else 2 in
  {| div_score := Fin score; div_tokenCount := tokenCount |}.

(** *** calculateVolatilityRisk *)
Record volatilityAcc := {
  volatilityScore : number;
  stablecoins : number;
  bluechip : number;
  altcoins : number;
  memecoins : number
}.

Definition volatility_step (totalValue : number) (acc : volatilityAcc)
  (t : token) : volatilityAcc :=
  let percentage := num_mul (num_div (Fin (valueUSD t)) totalValue) (Fin 100) in
  if isStablecoin (symbol t) then
    {| stablecoins := num_add (stablecoins acc) percentage;
       volatilityScore :=
         num_add (volatilityScore acc) (num_mul percentage (Fin (1 # 20)));
       bluechip := bluechip acc; altcoins := altcoins acc;
       memecoins := memecoins acc |}
  else if isBluechip (symbol t) then
    {| bluechip := num_add (bluechip acc) percentage;
       volatilityScore :=
         num_add (volatilityScore acc) (num_mul percentage (Fin (3 # 20)));
       stablecoins := stablecoins acc; altcoins := altcoins acc;
       memecoins := memecoins acc |}
  else if isMemecoin (symbol t) then
    {| memecoins := num_add (memecoins acc) percentage;
       volatilityScore :=
         num_add (volatilityScore acc) (num_mul percentage (Fin (1 # 2)));
       stablecoins := stablecoins acc; bluechip := bluechip acc;
       altcoins := altcoins acc |}
  else
    {| altcoins := num_add (altcoins acc) percentage;
       volatilityScore :=
         num_add (volatilityScore acc) (num_mul percentage (Fin (3 # 10)));
       stablecoins := stablecoins acc; bluechip := bluechip acc;
       memecoins := memecoins acc |}.

Record volatilityRisk := {
  vol_score : number;
  vol_breakdown : volatilityAcc
}.

Definition volatility_init : volatilityAcc :=
  {| volatilityScore := Fin 0; stablecoins := Fin 0; bluechip := Fin 0;
     altcoins := Fin 0; memecoins := Fin 0 |}.

Definition calculateVolatilityRisk (tokens : list token) : volatilityRisk :=
  let totalValue := totalValueOf tokens in
  let acc := fold_left (volatility_step totalValue) tokens volatility_init in
  let normalizedScore :=
    num_mul (num_div (volatilityScore acc) (Fin 100)) (Fin 30) in
  {| vol_score := normalizedScore; vol_breakdown := acc |}.

(** *** calculateConcentrationRisk *)

(** [[...tokens].sort((a, b) => b.valueUSD - a.valueUSD)]: a stable sort
    (as [Array.prototype.sort] is) by descending value, written as an
    insertion sort. *)
Fixpoint insert_desc (x : token) (l : list token) : list token :=
  match l with
  | [] => [x]
  | y :: ys =>
      if Qlt_le_dec (valueUSD y) (valueUSD x) then x :: y :: ys
      else y :: insert_desc x ys
  end.

Definition sort_desc (tokens : list token) : list token :=
  fold_left (fun acc t => insert_desc t acc) tokens [].

Record concentrationRisk := {
  conc_score : number;
  top1Percent : number;
  top3Percent : number
}.

Definition calculateConcentrationRisk (tokens : list token)
  : concentrationRisk :=
  let totalValue := totalValueOf tokens in
  let sorted := sort_desc tokens in
  let top1Percent :=
    match sorted with
    | t :: _ => num_mul (num_div (Fin (valueUSD t)) totalValue) (Fin 100)
    | [] => Fin 0
    end in
  let top3Percent :=
    num_mul
      (num_div
         (fold_left (fun sum t => num_add sum (Fin (valueUSD t)))
            (firstn 3 sorted) (Fin 0))
         totalValue)
      (Fin 100) in
  let score :=
    if num_gt top1Percent (Fin 70) then 25
    else if num_gt top1Percent (Fin 50) then 20
    else if num_gt top1Percent (Fin 30) then 15
    else if num_gt top3Percent (Fin 80) then 10
    else 3 in
  {| conc_score := Fin score; top1Percent := top1Percent;
     top3Percent := top3Percent |}.

(** *** calculateLiquidityRisk *)
Record liquidityRisk := {
  liq_score : number;
  illiquidTokens : nat;
  illiquidPercentage : number
}.

Definition liquidity_step (acc : nat * number) (t : token) : nat * number :=
  let '(illiquidCount, illiquidValue) := acc in
  if Qlt_le_dec (valueUSD t) 100 then
    (S illiquidCount, num_add illiquidValue (Fin (valueUSD t)))
  else if isLowLiquidityToken (symbol t) then
    (S illiquidCount, num_add illiquidValue (Fin (valueUSD t)))
  else acc.

Definition calculateLiquidityRisk (tokens : list token) : liquidityRisk :=
  let totalValue := totalValueOf tokens in
  let '(illiquidCount, illiquidValue) :=
    fold_left liquidity_step tokens (0%nat, Fin 0) in
  let illiquidPercentage :=
    num_mul (num_div illiquidValue totalValue) (Fin 100) in
  let score :=
    if num_gt illiquidPercentage (Fin 50) then 20
    else if num_gt illiquidPercentage (Fin 25) then 15
    else if num_gt illiquidPercentage (Fin 10) then 8
    else 2 in
  {| liq_score := Fin score; illiquidTokens := illiquidCount;
     illiquidPercentage := illiquidPercentage |}.

(** *** calculatePortfolioRisk

    The result keeps [score], [level] and the four factors; the
    recommendations and the timestamp are not modelled. *)
Record portfolioRisk := {
  score : number;
  risk_level : level;
  diversification : diversificationRisk;
  volatility : volatilityRisk;
  concentration : concentrationRisk;
  liquidity : liquidityRisk
}.

Definition calculatePortfolioRisk (tokens : list token) : portfolioRisk :=
  let d := calculateDiversificationRisk tokens in
  let riskScore := num_add (Fin 0) (div_score d) in
  let v := calculateVolatilityRisk tokens in
  let riskScore := num_add riskScore (vol_score v) in
  let c := calculateConcentrationRisk tokens in
  let riskScore := num_add riskScore (conc_score c) in
  let l := calculateLiquidityRisk tokens in
  let riskScore := num_add riskScore (liq_score l) in
  let lvl := getRiskLevel riskScore in
  {| score := Math_round riskScore; risk_level := lvl;
     diversification := d; volatility := v; concentration := c;
     liquidity := l |}.

(** The sum [riskScore] before rounding. *)
Definition subScoreSum (r : portfolioRisk) : number :=
  num_add (num_add (num_add (num_add (Fin 0) (div_score (diversification r)))
    (vol_score (volatility r))) (conc_score (concentration r)))
    (liq_score (liquidity r)).

(** *** assessTransactionRisk *)
Record transaction := mkTx {
  tx_value : number;
  gasUsed : number;
  tokenTransfers : option (list jsval);
  to : option string
}.

Record transactionRisk := {
  tx_level : level;
  tx_score : number;
  warnings : list string;
  shouldAlert : bool
}.

Definition assessTransactionRisk (transaction : transaction)
  : transactionRisk :=
  let '(riskScore, warnings) := (Fin 0, @nil string) in
  let '(riskScore, warnings) :=
    if num_gt (tx_value transaction) (Fin 10000) then
      (num_add riskScore (Fin 15), warnings ++ ["High transaction value"])
    else (riskScore, warnings) in
  let '(riskScore, warnings) :=
    if num_gt (gasUsed transaction) (Fin 500000) then
      (num_add riskScore (Fin 20), warnings ++ ["Unusually high gas usage"])
    else (riskScore, warnings) in
  let '(riskScore, warnings) :=
    match tokenTransfers transaction with
    | Some l =>
        if (5 <? length l)%nat then
          (num_add riskScore (Fin 10),
           warnings ++ ["Multiple token transfers in single transaction"])
        else (riskScore, warnings)
    | None => (riskScore, warnings)
    end in
  let '(riskScore, warnings) :=
    match to transaction with
    | Some a =>
        if truthy (JString a) && negb (isKnownContract a) then
          (num_add riskScore (Fin 25),
           warnings ++ ["Interaction with unknown contract"])
        else (riskScore, warnings)
    | None => (riskScore, warnings)
    end in
  let lvl := getRiskLevel riskScore in
  {| tx_level := lvl; tx_score := riskScore; warnings := warnings;
     shouldAlert :=
       match lvl with HIGH | CRITICAL => true | _ => false end |}.

(* ================================================================== *)
(** ** cacheService.js

    [this.cache] and [this.ttls] are two [Map]s; [now] is [Date.now()] in
    milliseconds. Expiry timestamps are numbers, kept finite here. *)

Record cacheService := {
  cache : gmap string jsval;
  ttls : gmap string Q
}.

Definition emptyCache : cacheService := {| cache := ∅; ttls := ∅ |}.

(** [set(key, value, ttl = 300)]; the result is always [true]. *)
Definition cache_set (key : string) (v : jsval) (ttl : option Q) (now : Q)
  (c : cacheService) : cacheService * bool :=
  let ttl := default 300 ttl in
  let c1 := {| cache := <[key := v]> (cache c); ttls := ttls c |} in
  let c2 :=
    if Qlt_le_dec 0 ttl then
      let expiresAt := now + ttl * 1000 in
      {| cache := cache c1; ttls := <[key := expiresAt]> (ttls c1) |}
    else c1 in
  (c2, true).

(** [isExpired(key)]: [if (!expiresAt) return false;
    return Date.now() > expiresAt;] *)
Definition isExpired (key : string) (now : Q) (c : cacheService) : bool :=
  match ttls c !! key with
  | None => false
  | Some expiresAt =>
      if Qeq_bool expiresAt 0 then false else negb (Qle_bool now expiresAt)
  end.

(** [delete(key)] *)
Definition cache_delete (key : string) (c : cacheService)
  : cacheService * bool :=
  ({| cache := delete key (cache c); ttls := delete key (ttls c) |}, true).

(** [get(key)]: [return this.cache.get(key) || null;] *)
Definition cache_get (key : string) (now : Q) (c : cacheService)
  : cacheService * jsval :=
  if isExpired key now c then (fst (cache_delete key c), JNull)
  else
    (c, match cache c !! key with
        | Some v => if truthy v then v else JNull
        | None => JNull
        end).

(** [has(key)] *)
Definition cache_has (key : string) (now : Q) (c : cacheService)
  : cacheService * bool :=
  if isExpired key now c then (fst (cache_delete key c), false)
  else (c, bool_decide (is_Some (cache c !! key))).

(** [clear()] *)
Definition cache_clear (c : cacheService) : cacheService * bool :=
  (emptyCache, true).

(** [cleanExpired()]: the loop over [this.ttls.entries()] visits every entry
    present when it starts; deleting the entry being visited skips none. *)
Definition cleanExpired (now : Q) (c : cacheService) : cacheService :=
  fold_left (fun c '(key, expiresAt) =>
      if negb (Qle_bool now expiresAt) then
        {| cache := delete key (cache c); ttls := delete key (ttls c) |}
      else c)
    (map_to_list (ttls c)) c.

(** The calls a client can make on the service, at any time [now]. *)
Inductive cache_step : cacheService -> cacheService -> Prop :=
| cs_set key v ttl now c : cache_step c (fst (cache_set key v ttl now c))
| cs_get key now c : cache_step c (fst (cache_get key now c))
| cs_has key now c : cache_step c (fst (cache_has key now c))
| cs_delete key c : cache_step c (fst (cache_delete key c))
| cs_clear c : cache_step c (fst (cache_clear c))
| cs_clean now c : cache_step c (cleanExpired now c).

(** Every key with an expiry has a stored value. *)
Definition cache_wf (c : cacheService) : Prop :=
  forall key e, ttls c !! key = Some e -> is_Some (cache c !! key).

(* ================================================================== *)
(** ** JavaScript [Map]

    A [Map] is an association list in insertion order; [set] on a present
    key replaces the value in place, [delete] reports whether it removed
    an entry. Keys are compared with a given equality (SameValueZero). *)

Section JSMap.
Context {K V : Type} (keqb : K -> K -> bool).

Fixpoint map_get (k : K) (m : list (K * V)) : option V :=
  match m with
  | [] => None
  | (k', v) :: m' => if keqb k k' then Some v else map_get k m'
  end.

Fixpoint map_set (k : K) (v : V) (m : list (K * V)) : list (K * V) :=
  match m with
  | [] => [(k, v)]
  | (k', v') :: m' =>
      if keqb k k' then (k', v) :: m' else (k', v') :: map_set k v m'
  end.

Fixpoint map_delete (k : K) (m : list (K * V)) : bool * list (K * V) :=
  match m with
  | [] => (false, [])
  | (k', v') :: m' =>
      if keqb k k' then (true, m')
      else let '(b, m'') := map_delete k m' in (b, (k', v') :: m'')
  end.

End JSMap.

(** SameValueZero on the values used as keys. *)
Definition num_same (x y : number) : bool :=
  match x, y with
  | Fin a, Fin b => Qeq_bool a b
  | NaN, NaN => true
  | Inf p, Inf p' => Bool.eqb p p'
  | _, _ => false
  end.

Definition sameValueZero (x y : jsval) : bool :=
  match x, y with
  | JUndefined, JUndefined | JNull, JNull => true
  | JBool a, JBool b => Bool.eqb a b
  | JNumber a, JNumber b => num_same a b
  | JString a, JString b => String.eqb a b
  | JObject a, JObject b => Nat.eqb a b
  | _, _ => false
  end.

(* ================================================================== *)
(** ** alertService.js

    Alert objects live in a heap and both [Map]s of the service hold
    references to them ([this.alerts] keyed by the generated id,
    [this.activeAlerts] keyed by [alert.id]), so that [triggerAlert]
    mutating an alert is seen through both. *)

(** The object passed to [createAlert]: [None] is a property that the
    object does not have. Its [createdAt], which the controller passes, is
    overwritten by [createAlert] and left out; so is [lastChecked], which no
    caller passes. *)
Record alertData := mkAlertData {
  d_id : option jsval;
  d_address : option jsval;
  d_type : option jsval;
  d_condition : option jsval;
  d_value : option jsval;
  d_token : option jsval;
  d_triggeredAt : option jsval
}.

Record alert := mkAlert {
  a_id : jsval;
  a_address : jsval;
  a_type : jsval;
  a_condition : jsval;
  a_value : jsval;
  a_token : jsval;
  a_status : string;
  a_triggered : bool;
  a_createdAt : string;
  a_triggeredAt : option jsval
}.

Record alertService := {
  heap : list alert;
  alerts : list (string * nat);
  activeAlerts : list (jsval * nat)
}.

Definition emptyService : alertService :=
  {| heap := []; alerts := []; activeAlerts := [] |}.

Definition prop (p : option jsval) : jsval := default JUndefined p.

(** [createAlert(alertData)] with [alertId = this.generateAlertId()] and
    [now = new Date().toISOString()]: the object
    [{ id: alertId, ...alertData, status: 'active', triggered: false,
       createdAt: now }] is stored under [alertId] and returned. *)
Definition createAlert (alertId : string) (now : string) (d : alertData)
  (s : alertService) : alertService * nat :=
  let a := {| a_id := default (JString alertId) (d_id d);
              a_address := prop (d_address d);
              a_type := prop (d_type d);
              a_condition := prop (d_condition d);
              a_value := prop (d_value d);
              a_token := prop (d_token d);
              a_status := "active";
              a_triggered := false;
              a_createdAt := now;
              a_triggeredAt := d_triggeredAt d |} in
  let ref := length (heap s) in
  ({| heap := heap s ++ [a];
      alerts := map_set String.eqb alertId ref (alerts s);
      activeAlerts := activeAlerts s |}, ref).

(** [deleteAlert(alertId)]: [return this.alerts.delete(alertId);] *)
Definition deleteAlert (alertId : string) (s : alertService)
  : alertService * bool :=
  let '(removed, m) := map_delete String.eqb alertId (alerts s) in
  ({| heap := heap s; alerts := m; activeAlerts := activeAlerts s |},
   removed).

(** [alert.address.toLowerCase() === address.toLowerCase()]; [None] when
    [alert.address] is not a string and the call throws. *)
Definition addressMatches (address : string) (a : alert) : option bool :=
  match a_address a with
  | JString s => Some (String.eqb (toLowerCase s) (toLowerCase address))
  | _ => None
  end.

Fixpoint collectByAddress {K} (address : string) (hp : list alert)
  (m : list (K * nat)) : option (list alert) :=
  match m with
  | [] => Some []
  | (_, r) :: m' =>
      match hp !! r with
      | None => collectByAddress address hp m'
      | Some a =>
          match addressMatches address a, collectByAddress address hp m' with
          | Some true, Some rest => Some (a :: rest)
          | Some false, Some rest => Some rest
          | _, _ => None
          end
      end
  end.

(** [getAlertsByAddress(address)] *)
Definition getAlertsByAddress (address : string) (s : alertService)
  : option (list alert) :=
  collectByAddress address (heap s) (alerts s).

(** [getActiveAlerts(address)]: scans [this.activeAlerts]. *)
Definition getActiveAlerts (address : string) (s : alertService)
  : option (list alert) :=
  collectByAddress address (heap s) (activeAlerts s).

(** [triggerAlert(alert)]; the notification only writes to the console. *)
Definition triggerAlert (now : string) (r : nat) (s : alertService)
  : alertService :=
  match heap s !! r with
  | None => s
  | Some a =>
      let a' := {| a_id := a_id a; a_address := a_address a;
                   a_type := a_type a; a_condition := a_condition a;
                   a_value := a_value a; a_token := a_token a;
                   a_status := a_status a; a_triggered := true;
                   a_createdAt := a_createdAt a;
                   a_triggeredAt := Some (JString now) |} in
      {| heap := <[r := a']> (heap s);
         alerts := alerts s;
         activeAlerts := map_set sameValueZero (a_id a') r (activeAlerts s) |}
  end.

(** The outcome of [await this.evaluateAlert(alert)], which depends on the
    data provider: a boolean, or an exception. *)
Inductive outcome := Evaluated (b : bool) | Threw.

(** One iteration of the [for] loop of [checkAlerts]; the log records the
    alerts evaluated and their outcome ([Threw] is the [console.error] of
    the [catch]). *)
Definition checkOne (evaluateAlert : alert -> outcome) (now : string)
  (st : alertService * list (string * outcome)) (e : string * nat)
  : alertService * list (string * outcome) :=
  let '(s, log) := st in
  let '(k, r) := e in
  match heap s !! r with
  | None => st
  | Some a =>
      if negb (String.eqb (a_status a) "active") || a_triggered a then st
      else
        match evaluateAlert a with
        | Threw => (s, log ++ [(k, Threw)])
        | Evaluated true => (triggerAlert now r s, log ++ [(k, Evaluated true)])
        | Evaluated false => (s, log ++ [(k, Evaluated false)])
        end
  end.

(** [checkAlerts()]: [triggerAlert] never changes [this.alerts], so the
    live iteration over [this.alerts.values()] visits the entries present
    when the pass starts. *)
Definition checkAlerts (evaluateAlert : alert -> outcome) (now : string)
  (s : alertService) : alertService * list (string * outcome) :=
  fold_left (checkOne evaluateAlert now) (alerts s) (s, []).

(** The operations that change the registry; the two getters do not. *)
Inductive step : alertService -> alertService -> Prop :=
| step_create alertId now d s :
    step s (fst (createAlert alertId now d s))
| step_delete alertId s :
    step s (fst (deleteAlert alertId s))
| step_check evaluateAlert now s :
    step s (fst (checkAlerts evaluateAlert now s)).

Definition reachable (s : alertService) : Prop := rtc step emptyService s.

(** An entry is due for evaluation when its alert is active and not yet
    triggered. *)
Definition due (s : alertService) (e : string * nat) : bool :=
  match heap s !! e.2 with
  | Some a => String.eqb (a_status a) "active" && negb (a_triggered a)
  | None => false
  end.

(** A specification of the additive point system of
    [assessTransactionRisk], as the design describes it. *)
Definition specTransactionPoints (tx : transaction) : Z :=
  (if num_gt (tx_value tx) (Fin 10000) then 15 else 0) +
  (if num_gt (gasUsed tx) (Fin 500000) then 20 else 0) +
  (match tokenTransfers tx with
   | Some l => if (5 <? length l)%nat then 10 else 0
   | None => 0
   end) +
  (match to tx with
   | Some a => if truthy (JString a) && negb (isKnownContract a) then 25 else 0
   | None => 0
   end).

Definition is_hex_digit (c : ascii) : bool :=
  let n := nat_of_ascii c in
  ((48 <=? n) && (n <=? 57)) || ((97 <=? n) && (n <=? 102)) ||
  ((65 <=? n) && (n <=? 70)).

(** A PRICE alert on AURA as the alert controller builds it. *)
Definition samplePriceAlert (address : string) : alertData :=
  {| d_id := None; d_address := Some (JString address);
     d_type := Some (JString "PRICE"); d_condition := Some (JString "ABOVE");
     d_value := Some (JNumber (Fin (3 # 2))); d_token := Some (JString "AURA");
     d_triggeredAt := None |}.

(** The registry after one PRICE alert was created and then triggered. *)
Definition sampleTriggered : alertService :=
  fst (checkAlerts (fun _ => Evaluated true) "t1"
         (fst (createAlert "alert_1" "t0" (samplePriceAlert "0xabc")
                 emptyService))).

(** The registry after two alerts were created. *)
Definition sampleTwoAlerts : alertService :=
  fst (createAlert "alert_2" "t1" (samplePriceAlert "0xdef")
         (fst (createAlert "alert_1" "t0" (samplePriceAlert "0xabc")
                 emptyService))).

(** The alert data of [samplePriceAlert] without its [address]. *)
Definition missingAddressAlert : alertData :=
  {| d_id := None; d_address := None;
     d_type := Some (JString "PRICE"); d_condition := Some (JString "ABOVE");
     d_value := Some (JNumber (Fin (3 # 2))); d_token := Some (JString "AURA");
     d_triggeredAt := None |}.

Definition sumQ (tokens : list token) : Q :=
  fold_right (fun t acc => valueUSD t + acc) 0 tokens.

Ltac case_ifs :=
  repeat match goal with
         | |- context [if ?b then _ else _] => destruct b
         end.

(** In a reachable registry the references held by [this.alerts] are
    distinct and allocated. *)
Definition alerts_wf (s : alertService) : Prop :=
  List.NoDup (map snd (alerts s)) /\
  forall r, In r (map snd (alerts s)) -> (r < length (heap s))%nat.

(** An evaluator for which the data provider fails on the first alert. *)
Definition failFirst (a : alert) : outcome :=
  if sameValueZero (a_id a) (JString "alert_1") then Threw else Evaluated true.

(** ** riskAnalyzer.js: recommendations *)

(** The order LOW < MEDIUM < HIGH < CRITICAL of the levels. *)
Definition level_rank (l : level) : nat :=
  match l with LOW => 0 | MEDIUM => 1 | HIGH => 2 | CRITICAL => 3 end%nat.

(** [Number(x.toFixed(1))]: the nearest multiple of 0.1, the larger one on
    a tie, with the sign handled apart; [NaN] and the infinities print as
    themselves and read back unchanged. *)
Definition toFixed1 (x : number) : number :=
  match x with
  | Fin q =>
      if Qlt_le_dec q 0 then Fin (- (inject_Z (Qfloor (- q * 10 + (1 # 2))) / 10))
      else Fin (inject_Z (Qfloor (q * 10 + (1 # 2))) / 10)
  | _ => x
  end.

Record recommendation := {
  priority : string;
  message : string;
  action : string
}.

Definition rec_rebalance : recommendation :=
  {| priority := "urgent"; message := "Consider immediate portfolio rebalancing";
     action := "Reduce exposure to high-risk assets" |}.
Definition rec_diversify : recommendation :=
  {| priority := "high"; message := "Increase diversification";
     action := "Add 2-3 more quality tokens to spread risk" |}.
Definition rec_memecoins : recommendation :=
  {| priority := "high"; message := "High exposure to memecoins detected";
     action := "Consider taking profits and rotating into bluechips" |}.
Definition rec_concentrated : recommendation :=
  {| priority := "medium"; message := "Portfolio heavily concentrated in one asset";
     action := "Rebalance to reduce single-asset dependency" |}.
Definition rec_stable : recommendation :=
  {| priority := "medium"; message := "No stable asset buffer";
     action := "Consider allocating 10-20% to stablecoins" |}.

(** [getRiskRecommendations(level, factors)]; [factors.concentration.top1Percent]
    is the string [top1Percent.toFixed(1)], which [> 50] reads back as a
    number. *)
Definition getRiskRecommendations (lvl : level) (d : diversificationRisk)
  (v : volatilityRisk) (c : concentrationRisk) : list recommendation :=
  (match lvl with CRITICAL | HIGH => [rec_rebalance] | _ => [] end) ++
  (if (div_tokenCount d <? 3)%nat then [rec_diversify] else []) ++
  (if num_gt (memecoins (vol_breakdown v)) (Fin 30) then [rec_memecoins] else []) ++
  (if num_gt (toFixed1 (top1Percent c)) (Fin 50) then [rec_concentrated] else []) ++
  (if num_lt (stablecoins (vol_breakdown v)) (Fin 10) &&
      negb (match lvl with LOW => true | _ => false end)
   then [rec_stable] else []).

(** The [recommendations] field of [calculatePortfolioRisk(tokens)]. *)
Definition portfolioRecommendations (tokens : list token)
  : list recommendation :=
  let r := calculatePortfolioRisk tokens in
  getRiskRecommendations (risk_level r) (diversification r) (volatility r)
    (concentration r).

(** ** alertService.js: evaluating an alert *)

(** Strict equality [===]: like SameValueZero except that [NaN] equals
    nothing. *)
Definition strictEquals (x y : jsval) : bool :=
  match x, y with
  | JNumber NaN, _ | _, JNumber NaN => false
  | _, _ => sameValueZero x y
  end.

(** The strings ['LOW'], ['MEDIUM'], ['HIGH'], ['CRITICAL']. *)
Definition level_string (l : level) : string :=
  match l with
  | LOW => "LOW" | MEDIUM => "MEDIUM" | HIGH => "HIGH" | CRITICAL => "CRITICAL"
  end.

(** The answers of [AuraService] at the time of a check. Each method catches
    its own errors and falls back to mock data, so none throws:
    [getTokenPrice(symbol)] gives the [current] and [change24h] fields of
    the price data, [getTokenBalances(address)] the holdings and
    [getTransactions(address, 1)] the transactions with their [timestamp]
    field. *)
Record auraProvider := {
  getTokenPrice : jsval -> jsval * jsval;
  getTokenBalances : jsval -> list token;
  getTransactions : jsval -> list (transaction * jsval)
}.

(** The JavaScript operators the evaluators apply to values of any type:
    [x > y], [x < y], unary [-x], and [new Date(x).getTime()]. *)
Record jsOps := {
  js_gt : jsval -> jsval -> bool;
  js_lt : jsval -> jsval -> bool;
  js_neg : jsval -> jsval;
  dateGetTime : jsval -> number
}.

Section Evaluate.
Variables (P : auraProvider) (J : jsOps).

(** [evaluatePriceAlert(alert)] *)
Definition evaluatePriceAlert (a : alert) : bool :=
  let '(current, change24h) := getTokenPrice P (a_token a) in
  let condition := a_condition a in
  let value := a_value a in
  if strictEquals condition (JString "ABOVE") then js_gt J current value
  else if strictEquals condition (JString "BELOW") then js_lt J current value
  else if strictEquals condition (JString "CHANGE_UP") then js_gt J change24h value
  else if strictEquals condition (JString "CHANGE_DOWN") then
    js_lt J change24h (js_neg J value)
  else false.

(** [evaluateRiskAlert(alert)] *)
Definition evaluateRiskAlert (a : alert) : bool :=
  let tokens := getTokenBalances P (a_address a) in
  let riskScore := calculatePortfolioRisk tokens in
  let condition := a_condition a in
  let value := a_value a in
  if strictEquals condition (JString "EXCEEDS") then
    js_gt J (JNumber (score riskScore)) value
  else if strictEquals condition (JString "BELOW") then
    js_lt J (JNumber (score riskScore)) value
  else if strictEquals condition (JString "LEVEL") then
    strictEquals (JString (level_string (risk_level riskScore))) value
  else false.

(** [evaluateBalanceAlert(alert)] *)
Definition evaluateBalanceAlert (a : alert) : bool :=
  let tokens := getTokenBalances P (a_address a) in
  match List.find (fun t => strictEquals (JString (symbol t)) (a_token a)) tokens with
  | None => false
  | Some tokenData =>
      let condition := a_condition a in
      let value := a_value a in
      if strictEquals condition (JString "ABOVE") then
        js_gt J (JNumber (Fin (balance tokenData))) value
      else if strictEquals condition (JString "BELOW") then
        js_lt J (JNumber (Fin (balance tokenData))) value
      else false
  end.

(** [evaluateTransactionAlert(alert)]; the alert objects of the service
    carry no [lastChecked] property, so [alert.lastChecked ||
    alert.createdAt] is [alert.createdAt]. *)
Definition evaluateTransactionAlert (a : alert) : bool :=
  match getTransactions P (a_address a) with
  | [] => false
  | (latestTx, timestamp) :: _ =>
      let txTime := dateGetTime J timestamp in
      let alertTime := dateGetTime J (JString (a_createdAt a)) in
      if num_gt txTime alertTime then
        match tx_level (assessTransactionRisk latestTx) with
        | HIGH | CRITICAL => true
        | _ => false
        end
      else false
  end.

(** [evaluateAlert(alert)] *)
Definition evaluateAlert (a : alert) : bool :=
  if strictEquals (a_type a) (JString "PRICE") then evaluatePriceAlert a
  else if strictEquals (a_type a) (JString "RISK") then evaluateRiskAlert a
  else if strictEquals (a_type a) (JString "BALANCE") then evaluateBalanceAlert a
  else if strictEquals (a_type a) (JString "TRANSACTION") then
    evaluateTransactionAlert a
  else false.

End Evaluate.

(** ** alertController.js: [createAlert] *)

(** The properties [address], [type], [condition], [value] and [token] of
    [req.body]; [None] is a property the body does not have. *)
Record requestBody := mkBody {
  b_address : option jsval;
  b_type : option jsval;
  b_condition : option jsval;
  b_value : option jsval;
  b_token : option jsval
}.

(** [res.status(400)] with the missing-fields error, or
    [res.status(201)] with the stored alert. *)
Inductive createResponse := BadRequest | Created (ref : nat).

(** [AlertController.createAlert]: the [createdAt] it adds to the alert data
    is overwritten by the one [AlertService.createAlert] sets, so it is not
    modelled. *)
Definition controller_createAlert (alertId now : string) (body : requestBody)
  (s : alertService) : alertService * createResponse :=
  let address := prop (b_address body) in
  let type := prop (b_type body) in
  let condition := prop (b_condition body) in
  let value := prop (b_value body) in
  let token := prop (b_token body) in
  if negb (truthy address) || negb (truthy type) || negb (truthy condition) ||
     negb (truthy value)
  then (s, BadRequest)
  else
    let '(s', r) :=
      createAlert alertId now
        {| d_id := None; d_address := Some address; d_type := Some type;
           d_condition := Some condition; d_value := Some value;
           d_token := Some token; d_triggeredAt := None |} s in
    (s', Created r).

(** The order of [sort_desc]: [x] may come before [y]. *)
Definition value_desc (x y : token) : Prop := valueUSD y <= valueUSD x.

(** A provider that holds nothing and knows no transaction, with a price of
    1 for every token. *)
Definition sampleProvider : auraProvider :=
  {| getTokenPrice := fun _ => (JNumber (Fin 1), JNumber (Fin 0));
     getTokenBalances := fun _ => [];
     getTransactions := fun _ => [] |}.

(** Operators that answer [true] to every comparison, with every date at
    time 0. *)
Definition sampleOps : jsOps :=
  {| js_gt := fun _ _ => true; js_lt := fun _ _ => true;
     js_neg := fun x => x; dateGetTime := fun _ => Fin 0 |}.

(** Alert data of a type the evaluator does not know. *)
Definition sampleSwapAlert : alertData :=
  {| d_id := None; d_address := Some (JString "0xabc");
     d_type := Some (JString "SWAP"); d_condition := Some (JString "ABOVE");
     d_value := Some (JNumber (Fin 1)); d_token := Some (JString "AURA");
     d_triggeredAt := None |}.

(** A provider for which every address holds 5000 AURA. *)
Definition sampleHoldings : auraProvider :=
  {| getTokenPrice := fun _ => (JNumber (Fin 1), JNumber (Fin 0));
     getTokenBalances := fun _ => [mkToken "AURA" 5000 7500];
     getTransactions := fun _ => [] |}.

(* ================================================================== *)
(** * Theorems *)

(** C6: [deleteAlert] removes the alert from [this.alerts] only. After an
    alert was created, triggered by a pass of [checkAlerts] and deleted,
    [deleteAlert] answered [true] and [getAlertsByAddress] no longer lists
    it, but [getActiveAlerts] still returns it from [this.activeAlerts]. *)
Lemma deleteAlert_triggered_still_listed :
  let '(s1, _) := createAlert "alert_1" "t0" (samplePriceAlert "0xabc")
                    emptyService in
  let s2 := fst (checkAlerts (fun _ => Evaluated true) "t1" s1) in
  let '(s3, removed) := deleteAlert "alert_1" s2 in
  removed = true /\
  getAlertsByAddress "0xabc" s3 = Some [] /\
  (exists a, getActiveAlerts "0xabc" s3 = Some [a] /\
             a_id a = JString "alert_1" /\ a_triggered a = true).
Proof.
  vm_compute. split; [reflexivity|]. split; [reflexivity|].
  eexists. split; [reflexivity|]. split; reflexivity.
Qed.

(** C7: [set(key, value, 0)] does not touch [this.ttls], so the expiry
    recorded by an earlier [set(key, v1, 1)] stays: the new value is
    returned at time 500 but at time 2000 [get] answers [null] and evicts
    it. *)
Lemma cache_set_zero_ttl_keeps_old_expiry :
  let c1 := fst (cache_set "k" (JString "v1") (Some 1) 0 emptyCache) in
  let c2 := fst (cache_set "k" (JString "v2") (Some 0) 0 c1) in
  snd (cache_get "k" 500 c2) = JString "v2" /\
  snd (cache_get "k" 2000 c2) = JNull /\
  cache (fst (cache_get "k" 2000 c2)) !! "k" = None.
Proof. vm_compute. repeat split. Qed.

(** C8: a live entry whose value is falsy (here the number 0) is read as
    [null] by [get] ([this.cache.get(key) || null]), while [has] reports
    it present. *)
Lemma cache_get_falsy_value_absent :
  let c1 := fst (cache_set "k" (JNumber (Fin 0)) None 0 emptyCache) in
  cache c1 !! "k" = Some (JNumber (Fin 0)) /\
  isExpired "k" 1 c1 = false /\
  snd (cache_get "k" 1 c1) = JNull /\
  snd (cache_has "k" 1 c1) = true.
Proof. vm_compute. repeat split. Qed.

(** C9 (counterexample): alert data without [address] is not rejected by
    [createAlert]: it is stored under the generated id as an active,
    untriggered alert whose address is [undefined]. *)
Lemma createAlert_stores_malformed :
  let '(s1, r) := createAlert "alert_1" "t0" missingAddressAlert emptyService in
  map_get String.eqb "alert_1" (alerts s1) = Some r /\
  exists a, heap s1 !! r = Some a /\ a_address a = JUndefined /\
            a_status a = "active" /\ a_triggered a = false.
Proof.
  vm_compute. split; [reflexivity|]. eexists. repeat split.
Qed.

Lemma map_get_set_eq {V} (k : string) (v : V) (m : list (string * V)) :
  map_get String.eqb k (map_set String.eqb k v m) = Some v.
Proof.
  induction m as [|[k' v'] m IH]; simpl.
  - by rewrite String.eqb_refl.
  - destruct (String.eqb k k') eqn:E; simpl; rewrite ?E; auto.
Qed.

Lemma createAlert_new_object (alertId now : string) (d : alertData)
  (s : alertService) :
  let '(s', r) := createAlert alertId now d s in
  r = length (heap s) /\
  map_get String.eqb alertId (alerts s') = Some r /\
  exists a, heap s' !! r = Some a /\
    a_status a = "active" /\ a_triggered a = false /\ a_createdAt a = now /\
    a_id a = default (JString alertId) (d_id d) /\
    a_address a = prop (d_address d) /\ a_type a = prop (d_type d) /\
    a_condition a = prop (d_condition d) /\ a_value a = prop (d_value d).
Proof.
  simpl. split; [reflexivity|]. split; [apply map_get_set_eq|].
  eexists. split.
  - rewrite lookup_app_r by lia. rewrite Nat.sub_diag. reflexivity.
  - repeat split.
Qed.

Lemma controller_createAlert_cases (alertId now : string) (body : requestBody)
  (s : alertService) :
  (truthy (prop (b_address body)) = false \/ truthy (prop (b_type body)) = false \/
   truthy (prop (b_condition body)) = false \/ truthy (prop (b_value body)) = false ->
   controller_createAlert alertId now body s = (s, BadRequest)) /\
  (truthy (prop (b_address body)) = true -> truthy (prop (b_type body)) = true ->
   truthy (prop (b_condition body)) = true -> truthy (prop (b_value body)) = true ->
   exists s' r a, controller_createAlert alertId now body s = (s', Created r) /\
     map_get String.eqb alertId (alerts s') = Some r /\ heap s' !! r = Some a /\
     a_id a = JString alertId /\ a_address a = prop (b_address body) /\
     a_status a = "active" /\ a_triggered a = false /\ a_createdAt a = now).
Proof.
  unfold controller_createAlert. cbv zeta. split.
  - intros [H|[H|[H|H]]]; rewrite H; cbn [negb orb];
      rewrite ?orb_true_r; reflexivity.
  - intros H1 H2 H3 H4. rewrite H1, H2, H3, H4. cbn [negb orb].
    unfold createAlert. cbv zeta.
    do 3 eexists. split; [reflexivity|]. cbn [alerts heap].
    split; [apply map_get_set_eq|].
    split; [rewrite lookup_app_r by lia; rewrite Nat.sub_diag; reflexivity|].
    repeat split.
Qed.

(** C9 (amended): [AlertService.createAlert] validates nothing: every alert
    data, with or without [address], [type], [condition] or [value], is
    stored under the generated id as a new object with status ['active'],
    [triggered = false] and [createdAt = now], and that object is returned.
    The required fields are checked by the alert controller only: it answers
    400 and stores nothing when [address], [type], [condition] or [value] is
    falsy, and otherwise stores, through [createAlert], a new alert under the
    generated id whose [id] is that id, with status ['active'],
    [triggered = false] and [createdAt = now]. *)
Theorem createAlert_stores_any_spec (alertId now : string) :
  (forall (d : alertData) (s : alertService),
     let '(s', r) := createAlert alertId now d s in
     r = length (heap s) /\
     map_get String.eqb alertId (alerts s') = Some r /\
     exists a, heap s' !! r = Some a /\
       a_status a = "active" /\ a_triggered a = false /\ a_createdAt a = now /\
       a_address a = prop (d_address d) /\ a_type a = prop (d_type d) /\
       a_condition a = prop (d_condition d) /\ a_value a = prop (d_value d)) /\
  (forall (body : requestBody) (s : alertService),
     (truthy (prop (b_address body)) = false \/ truthy (prop (b_type body)) = false \/
      truthy (prop (b_condition body)) = false \/ truthy (prop (b_value body)) = false ->
      controller_createAlert alertId now body s = (s, BadRequest)) /\
     (truthy (prop (b_address body)) = true -> truthy (prop (b_type body)) = true ->
      truthy (prop (b_condition body)) = true -> truthy (prop (b_value body)) = true ->
      exists s' r a, controller_createAlert alertId now body s = (s', Created r) /\
        map_get String.eqb alertId (alerts s') = Some r /\ heap s' !! r = Some a /\
        a_id a = JString alertId /\ a_status a = "active" /\
        a_triggered a = false /\ a_createdAt a = now)).
Proof.
  split.
  - intros d s. pose proof (createAlert_new_object alertId now d s) as H.
    destruct (createAlert alertId now d s) as [s' r].
    destruct H as (Hr & Hm & a & Ha & H1 & H2 & H3 & _ & H5 & H6 & H7 & H8).
    split; [exact Hr|]. split; [exact Hm|].
    exists a. repeat split; assumption.
  - intros body s.
    destruct (controller_createAlert_cases alertId now body s) as [Hbad Hok].
    split; [exact Hbad|].
    intros H1 H2 H3 H4.
    destruct (Hok H1 H2 H3 H4) as (s' & r & a & He & Hm & Ha & Hid & _ & Hs & Ht & Hc).
    exists s', r, a. repeat split; assumption.
Qed.

Lemma createAlert_stores_any_spec_witness :
  (let '(s1, r) := createAlert "alert_1" "t0" missingAddressAlert emptyService in
   r = 0%nat /\ map_get String.eqb "alert_1" (alerts s1) = Some r /\
   exists a, heap s1 !! r = Some a /\ a_status a = "active" /\
     a_triggered a = false /\ a_createdAt a = "t0" /\
     a_address a = JUndefined /\ a_type a = JString "PRICE" /\
     a_condition a = JString "ABOVE" /\ a_value a = JNumber (Fin (3 # 2))) /\
  controller_createAlert "alert_1" "t0"
    (mkBody None (Some (JString "PRICE")) (Some (JString "ABOVE"))
       (Some (JNumber (Fin (3 # 2)))) (Some (JString "AURA"))) emptyService =
    (emptyService, BadRequest).
Proof.
  destruct (createAlert_stores_any_spec "alert_1" "t0") as [Hs Hc]. split.
  - exact (Hs missingAddressAlert emptyService).
  - apply (proj1 (Hc (mkBody None (Some (JString "PRICE")) (Some (JString "ABOVE"))
       (Some (JNumber (Fin (3 # 2)))) (Some (JString "AURA"))) emptyService)).
    left. reflexivity.
Defined.

Lemma assessTransactionRisk_points (tx : transaction) :
  exists q, tx_score (assessTransactionRisk tx) = Fin q /\
            q == inject_Z (specTransactionPoints tx) /\
            tx_level (assessTransactionRisk tx) = getRiskLevel (Fin q).
Proof.
  unfold assessTransactionRisk, specTransactionPoints.
  destruct (num_gt (tx_value tx) (Fin 10000));
  destruct (num_gt (gasUsed tx) (Fin 500000));
  destruct (tokenTransfers tx) as [l|];
  try destruct (5 <? length l)%nat;
  destruct (to tx) as [a|];
  try destruct (truthy (JString a) && negb (isKnownContract a));
  simpl; eexists; (split; [reflexivity|]); split; reflexivity.
Qed.

Lemma specTransactionPoints_range (tx : transaction) :
  (0 <= specTransactionPoints tx <= 70)%Z.
Proof.
  unfold specTransactionPoints.
  destruct (num_gt (tx_value tx) (Fin 10000));
  destruct (num_gt (gasUsed tx) (Fin 500000));
  destruct (tokenTransfers tx) as [l|];
  try destruct (5 <? length l)%nat;
  destruct (to tx) as [a|];
  try destruct (truthy (JString a) && negb (isKnownContract a));
  lia.
Qed.

Lemma transactionRisk_le_70 (tx : transaction) :
  exists q, tx_score (assessTransactionRisk tx) = Fin q /\ 0 <= q <= 70.
Proof.
  destruct (assessTransactionRisk_points tx) as (q & Hs & Hq & _).
  exists q. split; [exact Hs|].
  pose proof (specTransactionPoints_range tx) as [H0 H1].
  rewrite Hq. split.
  - change 0 with (inject_Z 0). rewrite <- Zle_Qle. exact H0.
  - change 70 with (inject_Z 70). rewrite <- Zle_Qle. exact H1.
Qed.

(** C4 (counterexample): no transaction scores more than 100. *)
Lemma transactionRisk_never_exceeds_100 :
  ~ exists tx, num_gt (tx_score (assessTransactionRisk tx)) (Fin 100) = true.
Proof.
  intros [tx H].
  destruct (transactionRisk_le_70 tx) as (q & Hs & _ & Hq).
  rewrite Hs in H. unfold num_gt, num_lt in H.
  apply negb_true_iff in H.
  assert (Hle : q <= 100) by lra.
  apply Qle_bool_iff in Hle. congruence.
Qed.

(** C4 (amended): the score of [assessTransactionRisk] is the additive
    point system ([value > 10000]: 15, [gasUsed > 500000]: 20, more than 5
    token transfers: 10, a non-empty [to] outside the known-contract list:
    25), and it lies between 0 and 70, so it never exceeds 100. *)
Theorem assessTransactionRisk_additive_bounded (tx : transaction) :
  exists q, tx_score (assessTransactionRisk tx) = Fin q /\
            q == inject_Z (specTransactionPoints tx) /\
            0 <= q <= 70.
Proof.
  destruct (assessTransactionRisk_points tx) as (q & Hs & Hq & _).
  destruct (transactionRisk_le_70 tx) as (q' & Hs' & Hb).
  rewrite Hs in Hs'. injection Hs' as <-. eauto.
Qed.

Lemma ascii_lower_hex_not_dot (c : ascii) :
  is_hex_digit c = true -> ascii_lower c <> "."%char.
Proof.
  destruct c as [[] [] [] [] [] [] [] []]; vm_compute; congruence.
Qed.

Lemma prefix_cons (a b : ascii) (s1 s2 : string) :
  String.prefix (String a s1) (String b s2) =
  if ascii_dec a b then String.prefix s1 s2 else false.
Proof. reflexivity. Qed.

Lemma isKnownContract_hex (h : string) :
  Forall (fun c => is_hex_digit c = true) (list_ascii_of_string h) ->
  isKnownContract ("0x" ++ h)%string = false.
Proof.
  intros Hh. destruct h as [|c h']; [reflexivity|].
  simpl in Hh. inversion Hh as [|? ? Hc _]; subst.
  pose proof (ascii_lower_hex_not_dot c Hc) as Hne.
  assert (E : toLowerCase ("0x" ++ String c h')%string =
              String "0" (String "x" (String (ascii_lower c) (toLowerCase h'))))
    by reflexivity.
  assert (E2 : toLowerCase "0x..." = "0x...") by reflexivity.
  unfold isKnownContract, knownContracts, startsWith. cbn [existsb].
  rewrite E, E2, !prefix_cons.
  repeat match goal with
         | |- context [ascii_dec ?a ?b] => destruct (ascii_dec a b)
         end; try congruence; reflexivity.
Qed.

(** C10: when [to] is a hex address (['0x'] followed by hexadecimal
    digits), [isKnownContract] is false, so [assessTransactionRisk] adds the
    25 unknown-contract points: the score is at least 25 and the level is
    not LOW. *)
Theorem hex_address_is_unknown_contract (tx : transaction) (h : string) :
  Forall (fun c => is_hex_digit c = true) (list_ascii_of_string h) ->
  to tx = Some ("0x" ++ h)%string ->
  isKnownContract ("0x" ++ h)%string = false /\
  exists q, tx_score (assessTransactionRisk tx) = Fin q /\ 25 <= q /\
            tx_level (assessTransactionRisk tx) <> LOW.
Proof.
  intros Hh Hto. pose proof (isKnownContract_hex h Hh) as Hk.
  split; [exact Hk|].
  destruct (assessTransactionRisk_points tx) as (q & Hs & Hq & Hl).
  assert (H25 : (25 <= specTransactionPoints tx)%Z).
  { unfold specTransactionPoints. rewrite Hto, Hk.
    destruct (num_gt (tx_value tx) (Fin 10000));
    destruct (num_gt (gasUsed tx) (Fin 500000));
    destruct (tokenTransfers tx) as [l|];
    try destruct (5 <? length l)%nat; simpl; lia. }
  assert (Hq25 : 25 <= q).
  { rewrite Hq. change 25 with (inject_Z 25). rewrite <- Zle_Qle. exact H25. }
  exists q. split; [exact Hs|]. split; [exact Hq25|].
  rewrite Hl. unfold getRiskLevel, num_ge, num_lt.
  apply Qle_bool_iff in Hq25. rewrite Hq25. simpl.
  destruct (Qle_bool 75 q), (Qle_bool 50 q); discriminate.
Qed.

Lemma hex_address_is_unknown_contract_witness :
  Forall (fun c => is_hex_digit c = true) (list_ascii_of_string "aB12") /\
  to (mkTx (Fin 1) (Fin 21000) (Some []) (Some ("0x" ++ "aB12")%string)) =
    Some ("0x" ++ "aB12")%string /\
  isKnownContract ("0x" ++ "aB12")%string = false /\
  exists q, tx_score (assessTransactionRisk
                        (mkTx (Fin 1) (Fin 21000) (Some []) (Some ("0x" ++ "aB12")%string)))
            = Fin q /\ 25 <= q /\
            tx_level (assessTransactionRisk
                        (mkTx (Fin 1) (Fin 21000) (Some []) (Some ("0x" ++ "aB12")%string)))
            <> LOW.
Proof.
  assert (Hh : Forall (fun c => is_hex_digit c = true) (list_ascii_of_string "aB12"))
    by (repeat constructor).
  split; [exact Hh|]. split; [reflexivity|].
  apply (hex_address_is_unknown_contract _ "aB12" Hh). reflexivity.
Defined.

(** ** Portfolio risk *)

Lemma fold_sum_fin (l : list token) (a : Q) :
  exists q, fold_left (fun sum t => num_add sum (Fin (valueUSD t))) l (Fin a)
            = Fin q /\ q == a + sumQ l.
Proof.
  revert a. induction l as [|t l IH]; intros a; simpl.
  - exists a. split; [reflexivity|]. lra.
  - destruct (IH (a + valueUSD t)) as (q & Hq & E).
    exists q. split; [exact Hq|]. rewrite E. lra.
Qed.

Lemma totalValueOf_fin (tokens : list token) :
  exists q, totalValueOf tokens = Fin q /\ q == sumQ tokens.
Proof.
  destruct (fold_sum_fin tokens 0) as (q & Hq & E).
  exists q. split; [exact Hq|]. rewrite E. lra.
Qed.

Lemma Qdiv_nonneg (v T : Q) : 0 <= v -> 0 < T -> 0 <= v / T.
Proof.
  intros Hv HT. apply Qle_shift_div_l; [exact HT|]. lra.
Qed.

Lemma volatility_step_bound (T : Q) (acc : volatilityAcc) (t : token) (a : Q) :
  0 < T -> 0 <= valueUSD t -> volatilityScore acc = Fin a ->
  exists a', volatilityScore (volatility_step (Fin T) acc t) = Fin a' /\
             a <= a' <= a + valueUSD t / T * 100 * (1 # 2).
Proof.
  intros HT Hv Ha.
  assert (HTb : Qeq_bool T 0 = false).
  { destruct (Qeq_bool T 0) eqn:E; [|reflexivity].
    apply Qeq_bool_iff in E. lra. }
  pose proof (Qdiv_nonneg _ _ Hv HT) as Hp.
  unfold volatility_step. simpl. rewrite HTb.
  destruct (isStablecoin (symbol t)); [|destruct (isBluechip (symbol t));
    [|destruct (isMemecoin (symbol t))]]; simpl; rewrite Ha; simpl;
  eexists; (split; [reflexivity|]); lra.
Qed.

Lemma volatility_fold_bound (T : Q) (l : list token) (acc : volatilityAcc)
  (a : Q) :
  0 < T -> Forall (fun t => 0 <= valueUSD t) l -> volatilityScore acc = Fin a ->
  exists a', volatilityScore (fold_left (volatility_step (Fin T)) l acc) = Fin a'
             /\ a <= a' <= a + sumQ l / T * 100 * (1 # 2).
Proof.
  intros HT. revert acc a. induction l as [|t l IH]; intros acc a Hl Ha; simpl.
  - exists a. split; [exact Ha|]. unfold Qdiv. lra.
  - inversion Hl as [|? ? Ht Hl']; subst.
    destruct (volatility_step_bound T acc t a HT Ht Ha) as (b & Hb & Hb1 & Hb2).
    destruct (IH _ b Hl' Hb) as (c & Hc & Hc1 & Hc2).
    exists c. split; [exact Hc|]. unfold Qdiv in *. lra.
Qed.

Lemma calculateVolatilityRisk_bound (tokens : list token) :
  Forall (fun t => 0 <= valueUSD t) tokens ->
  tokens = [] \/ 0 < sumQ tokens ->
  exists v, vol_score (calculateVolatilityRisk tokens) = Fin v /\ 0 <= v <= 15.
Proof.
  intros Hnn [->|Hpos].
  - eexists. split; [reflexivity|]. unfold Qdiv. simpl. lra.
  - destruct (totalValueOf_fin tokens) as (T & HT & ET).
    assert (HT0 : 0 < T) by lra.
    destruct (volatility_fold_bound T tokens volatility_init 0 HT0 Hnn eq_refl)
      as (a & Ha & Ha1 & Ha2).
    assert (Hdiag : sumQ tokens / T == 1).
    { rewrite <- ET. unfold Qdiv. apply Qmult_inv_r. lra. }
    rewrite Hdiag in Ha2.
    unfold calculateVolatilityRisk. rewrite HT. simpl. rewrite Ha. simpl.
    eexists. split; [reflexivity|]. unfold Qdiv.
    change (/ 100) with (1 # 100). lra.
Qed.

Lemma calculateDiversificationRisk_range (tokens : list token) :
  exists d, div_score (calculateDiversificationRisk tokens) = Fin d /\
            0 <= d <= 25.
Proof.
  unfold calculateDiversificationRisk. cbv beta zeta. cbn [div_score].
  case_ifs; eexists; (split; [reflexivity|]); lra.
Qed.

Lemma calculateConcentrationRisk_range (tokens : list token) :
  exists c, conc_score (calculateConcentrationRisk tokens) = Fin c /\
            0 <= c <= 25.
Proof.
  unfold calculateConcentrationRisk. cbv beta zeta. cbn [conc_score].
  case_ifs; eexists; (split; [reflexivity|]); lra.
Qed.

Lemma calculateLiquidityRisk_range (tokens : list token) :
  exists l, liq_score (calculateLiquidityRisk tokens) = Fin l /\
            0 <= l <= 20.
Proof.
  unfold calculateLiquidityRisk. cbv beta zeta.
  destruct (fold_left liquidity_step tokens (0%nat, Fin 0)) as [n iv].
  cbn [liq_score].
  case_ifs; eexists; (split; [reflexivity|]); lra.
Qed.

Lemma portfolio_factors (tokens : list token) :
  diversification (calculatePortfolioRisk tokens)
    = calculateDiversificationRisk tokens /\
  volatility (calculatePortfolioRisk tokens) = calculateVolatilityRisk tokens /\
  concentration (calculatePortfolioRisk tokens)
    = calculateConcentrationRisk tokens /\
  liquidity (calculatePortfolioRisk tokens) = calculateLiquidityRisk tokens /\
  score (calculatePortfolioRisk tokens)
    = Math_round (subScoreSum (calculatePortfolioRisk tokens)).
Proof. repeat split. Qed.

(** C5 (counterexample): for a single BTC holding worth 5000 the four
    sub-scores are 25, 4.5, 25 and 2, whose sum is 56.5, while the returned
    score is 57. *)
Lemma portfolio_score_is_rounded :
  let r := calculatePortfolioRisk [mkToken "BTC" 1 5000] in
  div_score (diversification r) = Fin 25 /\
  (exists v, vol_score (volatility r) = Fin v /\ v == 9 # 2) /\
  conc_score (concentration r) = Fin 25 /\
  liq_score (liquidity r) = Fin 2 /\
  (exists q, subScoreSum r = Fin q /\ q == 113 # 2) /\
  score r = Fin 57.
Proof.
  vm_compute.
  split; [reflexivity|]. split; [eexists; split; reflexivity|].
  split; [reflexivity|]. split; [reflexivity|].
  split; [eexists; split; reflexivity|]. reflexivity.
Qed.

(** C5 (amended): for every list of holdings with non-negative values that
    is empty or has a positive total value, the sub-scores are numbers with
    [0 <= diversification <= 25], [0 <= volatility <= 30],
    [0 <= concentration <= 25] and [0 <= liquidity <= 20], and the returned
    score is [Math.round] of their sum. *)
Theorem portfolio_subscores_bounded (tokens : list token) :
  Forall (fun t => 0 <= valueUSD t) tokens ->
  tokens = [] \/ (exists T, totalValueOf tokens = Fin T /\ 0 < T) ->
  exists d v c l,
    div_score (diversification (calculatePortfolioRisk tokens)) = Fin d /\
    vol_score (volatility (calculatePortfolioRisk tokens)) = Fin v /\
    conc_score (concentration (calculatePortfolioRisk tokens)) = Fin c /\
    liq_score (liquidity (calculatePortfolioRisk tokens)) = Fin l /\
    0 <= d <= 25 /\ 0 <= v <= 30 /\ 0 <= c <= 25 /\ 0 <= l <= 20 /\
    subScoreSum (calculatePortfolioRisk tokens) = Fin (0 + d + v + c + l) /\
    score (calculatePortfolioRisk tokens) = Math_round (Fin (0 + d + v + c + l)).
Proof.
  intros Hnn Hcase.
  assert (Hcase' : tokens = [] \/ 0 < sumQ tokens).
  { destruct Hcase as [E|(T & HT & HT0)]; [left; exact E|right].
    destruct (totalValueOf_fin tokens) as (T' & HT' & E).
    rewrite HT in HT'. injection HT' as <-. lra. }
  destruct (portfolio_factors tokens) as (Ed & Ev & Ec & El & Es).
  destruct (calculateDiversificationRisk_range tokens) as (d & Hd & Bd).
  destruct (calculateVolatilityRisk_bound tokens Hnn Hcase') as (v & Hv & Bv).
  destruct (calculateConcentrationRisk_range tokens) as (c & Hc & Bc).
  destruct (calculateLiquidityRisk_range tokens) as (l & Hl & Bl).
  assert (Hsum : subScoreSum (calculatePortfolioRisk tokens)
                 = Fin (0 + d + v + c + l)).
  { unfold subScoreSum. rewrite Ed, Ev, Ec, El, Hd, Hv, Hc, Hl. reflexivity. }
  exists d, v, c, l.
  rewrite Ed, Ev, Ec, El, Es, Hsum.
  repeat split; try assumption; lra.
Qed.

Lemma portfolio_subscores_bounded_witness :
  Forall (fun t => 0 <= valueUSD t) [mkToken "BTC" 1 5000; mkToken "DOGE" 2 50] /\
  exists d v c l,
    div_score (diversification (calculatePortfolioRisk
      [mkToken "BTC" 1 5000; mkToken "DOGE" 2 50])) = Fin d /\
    vol_score (volatility (calculatePortfolioRisk
      [mkToken "BTC" 1 5000; mkToken "DOGE" 2 50])) = Fin v /\
    conc_score (concentration (calculatePortfolioRisk
      [mkToken "BTC" 1 5000; mkToken "DOGE" 2 50])) = Fin c /\
    liq_score (liquidity (calculatePortfolioRisk
      [mkToken "BTC" 1 5000; mkToken "DOGE" 2 50])) = Fin l /\
    0 <= d <= 25 /\ 0 <= v <= 30 /\ 0 <= c <= 25 /\ 0 <= l <= 20 /\
    subScoreSum (calculatePortfolioRisk
      [mkToken "BTC" 1 5000; mkToken "DOGE" 2 50]) = Fin (0 + d + v + c + l) /\
    score (calculatePortfolioRisk [mkToken "BTC" 1 5000; mkToken "DOGE" 2 50])
      = Math_round (Fin (0 + d + v + c + l)).
Proof.
  assert (Hnn : Forall (fun t => 0 <= valueUSD t)
                  [mkToken "BTC" 1 5000; mkToken "DOGE" 2 50]).
  { repeat constructor; simpl; vm_compute; discriminate. }
  split; [exact Hnn|].
  apply (portfolio_subscores_bounded _ Hnn).
  right. eexists. split; [reflexivity|]. vm_compute. reflexivity.
Defined.

Lemma liquidity_fold_zero (l : list token) (n : nat) (a : Q) :
  Forall (fun t => valueUSD t == 0) l ->
  exists n' q, fold_left liquidity_step l (n, Fin a) = (n', Fin q) /\ q == a.
Proof.
  revert n a. induction l as [|t l IH]; intros n a Hl; simpl.
  - exists n, a. split; [reflexivity|]. lra.
  - inversion Hl as [|? ? Ht Hl']; subst.
    destruct (Qlt_le_dec (valueUSD t) 100) as [Hlt|Hge];
      [|destruct (isLowLiquidityToken (symbol t))].
    + destruct (IH (S n) (a + valueUSD t) Hl') as (n' & q & E & Eq).
      exists n', q. split; [exact E|]. lra.
    + destruct (IH (S n) (a + valueUSD t) Hl') as (n' & q & E & Eq).
      exists n', q. split; [exact E|]. lra.
    + destruct (IH n a Hl') as (n' & q & E & Eq).
      exists n', q. split; [exact E|]. lra.
Qed.

Lemma sumQ_zero (l : list token) :
  Forall (fun t => valueUSD t == 0) l -> sumQ l == 0.
Proof.
  induction 1 as [|t l Ht _ IH]; simpl; [reflexivity|]. lra.
Qed.

(** C1 (counterexample): a single BTC holding worth 0 gives a volatility
    sub-score and a total score of [NaN] (the percentages divide 0 by 0),
    and a liquidity sub-score of 2. *)
Lemma zero_value_portfolio_NaN :
  let r := calculatePortfolioRisk [mkToken "BTC" 1 0] in
  vol_score (volatility r) = NaN /\
  liq_score (liquidity r) = Fin 2 /\
  score r = NaN.
Proof. vm_compute. repeat split. Qed.

(** C1 (amended): when every holding has [valueUSD = 0] (also for the empty
    portfolio) the liquidity sub-score is the number 2 (the illiquid
    percentage is [NaN] and falls through to the last branch), not 0; for
    the empty portfolio the volatility sub-score is 0 and the total score is
    the number 17. *)
Theorem zero_value_portfolio_scores (tokens : list token) :
  Forall (fun t => valueUSD t == 0) tokens ->
  liq_score (liquidity (calculatePortfolioRisk tokens)) = Fin 2 /\
  (tokens = [] ->
   (exists v, vol_score (volatility (calculatePortfolioRisk tokens)) = Fin v
              /\ v == 0) /\
   score (calculatePortfolioRisk tokens) = Fin 17).
Proof.
  intros Hz. split.
  - destruct (portfolio_factors tokens) as (_ & _ & _ & El & _). rewrite El.
    destruct (totalValueOf_fin tokens) as (T & HT & ET).
    destruct (liquidity_fold_zero tokens 0 0 Hz) as (n & q & Ef & Eq).
    pose proof (sumQ_zero tokens Hz) as Es.
    assert (HT0 : Qeq_bool T 0 = true) by (apply Qeq_bool_iff; lra).
    assert (Hq0 : Qeq_bool q 0 = true) by (apply Qeq_bool_iff; lra).
    unfold calculateLiquidityRisk. rewrite HT, Ef. simpl.
    rewrite HT0, Hq0. reflexivity.
  - intros ->. split.
    + eexists. split; [reflexivity|]. reflexivity.
    + reflexivity.
Qed.

Lemma zero_value_portfolio_scores_witness :
  Forall (fun t => valueUSD t == 0) [mkToken "BTC" 1 0; mkToken "PEPE" 5 0] /\
  liq_score (liquidity (calculatePortfolioRisk
    [mkToken "BTC" 1 0; mkToken "PEPE" 5 0])) = Fin 2 /\
  ([mkToken "BTC" 1 0; mkToken "PEPE" 5 0] = [] ->
   (exists v, vol_score (volatility (calculatePortfolioRisk
      [mkToken "BTC" 1 0; mkToken "PEPE" 5 0])) = Fin v /\ v == 0) /\
   score (calculatePortfolioRisk [mkToken "BTC" 1 0; mkToken "PEPE" 5 0])
     = Fin 17).
Proof.
  assert (Hz : Forall (fun t => valueUSD t == 0)
                 [mkToken "BTC" 1 0; mkToken "PEPE" 5 0])
    by (repeat constructor).
  split; [exact Hz|]. apply (zero_value_portfolio_scores _ Hz).
Defined.

(** ** Alert registry *)

Lemma triggerAlert_keeps_triggered (now : string) (r' : nat) (s : alertService)
  (r : nat) (a : alert) :
  heap s !! r = Some a -> a_triggered a = true ->
  exists a', heap (triggerAlert now r' s) !! r = Some a' /\ a_triggered a' = true.
Proof.
  intros Ha Ht. unfold triggerAlert.
  destruct (heap s !! r') as [b|] eqn:E; [|eauto].
  simpl. destruct (decide (r = r')) as [->|Hne].
  - rewrite list_lookup_insert_eq by (eapply lookup_lt_Some; exact E).
    eexists. split; reflexivity.
  - rewrite list_lookup_insert_ne by congruence. eauto.
Qed.

Lemma checkOne_keeps_triggered (ev : alert -> outcome) (now : string)
  (st : alertService * list (string * outcome)) (e : string * nat)
  (r : nat) (a : alert) :
  heap st.1 !! r = Some a -> a_triggered a = true ->
  exists a', heap (checkOne ev now st e).1 !! r = Some a' /\
             a_triggered a' = true.
Proof.
  destruct st as [s log], e as [k r']. intros Ha Ht. unfold checkOne.
  destruct (heap s !! r') as [b|]; [|eauto].
  destruct (negb (String.eqb (a_status b) "active") || a_triggered b);
    [eauto|].
  destruct (ev b) as [[]|]; simpl; eauto using triggerAlert_keeps_triggered.
Qed.

Lemma checkPass_keeps_triggered (ev : alert -> outcome) (now : string)
  (entries : list (string * nat)) (st : alertService * list (string * outcome))
  (r : nat) (a : alert) :
  heap st.1 !! r = Some a -> a_triggered a = true ->
  exists a', heap (fold_left (checkOne ev now) entries st).1 !! r = Some a' /\
             a_triggered a' = true.
Proof.
  revert st a. induction entries as [|e entries IH]; intros st a Ha Ht; simpl.
  - eauto.
  - destruct (checkOne_keeps_triggered ev now st e r a Ha Ht) as (a' & Ha' & Ht').
    eauto.
Qed.

Lemma step_keeps_triggered (s s' : alertService) (r : nat) (a : alert) :
  step s s' -> heap s !! r = Some a -> a_triggered a = true ->
  exists a', heap s' !! r = Some a' /\ a_triggered a' = true.
Proof.
  intros Hs Ha Ht. destruct Hs as [alertId now d s|alertId s|ev now s].
  - exists a. split; [|exact Ht]. simpl. apply lookup_app_l_Some. exact Ha.
  - unfold deleteAlert.
    destruct (map_delete String.eqb alertId (alerts s)). simpl. eauto.
  - unfold checkAlerts.
    exact (checkPass_keeps_triggered ev now (alerts s) (s, []) r a Ha Ht).
Qed.

(** C2: no operation of the registry or of the evaluator turns a triggered
    alert back to untriggered: along any sequence of [createAlert],
    [deleteAlert] and [checkAlerts] passes (with any outcomes of the data
    provider), the alert object stays triggered, also after its deletion
    from [this.alerts]. *)
Theorem triggered_alert_stays_triggered (s s' : alertService) (r : nat)
  (a : alert) :
  rtc step s s' -> heap s !! r = Some a -> a_triggered a = true ->
  exists a', heap s' !! r = Some a' /\ a_triggered a' = true.
Proof.
  intros Hs. revert a. induction Hs as [s|s1 s2 s3 H12 H23 IH]; intros a Ha Ht.
  - eauto.
  - destruct (step_keeps_triggered s1 s2 r a H12 Ha Ht) as (a' & Ha' & Ht').
    eauto.
Qed.

Lemma triggered_alert_stays_triggered_witness :
  exists a, heap sampleTriggered !! 0%nat = Some a /\ a_triggered a = true /\
  exists a', heap (fst (deleteAlert "alert_1" sampleTriggered)) !! 0%nat = Some a'
             /\ a_triggered a' = true.
Proof.
  eexists. split; [vm_compute; reflexivity|]. split; [reflexivity|].
  eapply (triggered_alert_stays_triggered sampleTriggered
           (fst (deleteAlert "alert_1" sampleTriggered)) 0%nat).
  - apply rtc_once. apply step_delete.
  - vm_compute. reflexivity.
  - reflexivity.
Defined.

(** *** Distinct references in [this.alerts] *)

Lemma map_set_snd {V} (k : string) (v : V) (m : list (string * V)) (x : V) :
  In x (map snd (map_set String.eqb k v m)) -> x = v \/ In x (map snd m).
Proof.
  induction m as [|[k' v'] m IH]; simpl.
  - intros [->|[]]. left. reflexivity.
  - destruct (String.eqb k k'); simpl.
    + intros [->|H]; [left; reflexivity|right; right; exact H].
    + intros [->|H]; [right; left; reflexivity|].
      destruct (IH H) as [->|H']; [left; reflexivity|right; right; exact H'].
Qed.

Lemma map_set_NoDup {V} (k : string) (v : V) (m : list (string * V)) :
  ~ In v (map snd m) -> List.NoDup (map snd m) ->
  List.NoDup (map snd (map_set String.eqb k v m)).
Proof.
  induction m as [|[k' v'] m IH]; simpl; intros Hv Hnd.
  - constructor; [intros []|constructor].
  - inversion Hnd as [|? ? Hni Hnd']; subst.
    destruct (String.eqb k k'); simpl.
    + constructor; [|exact Hnd']. intros Hin. apply Hv. right. exact Hin.
    + constructor.
      * intros Hin. apply map_set_snd in Hin as [->|Hin].
        -- apply Hv. left. reflexivity.
        -- exact (Hni Hin).
      * apply IH; [intros Hin; apply Hv; right; exact Hin|exact Hnd'].
Qed.

Lemma map_delete_snd {V} (k : string) (m : list (string * V)) :
  incl (map snd (map_delete String.eqb k m).2) (map snd m) /\
  (List.NoDup (map snd m) -> List.NoDup (map snd (map_delete String.eqb k m).2)).
Proof.
  induction m as [|[k' v'] m [IHi IHn]]; simpl.
  - split; [intros x []|intros H; exact H].
  - destruct (String.eqb k k').
    + simpl. split.
      * intros x Hx. right. exact Hx.
      * intros H. inversion H; assumption.
    + destruct (map_delete String.eqb k m) as [b m''] eqn:E. simpl in *.
      split.
      * intros x [->|Hx]; [left; reflexivity|right; apply IHi; exact Hx].
      * intros H. inversion H as [|? ? Hni Hnd']; subst. constructor.
        -- intros Hin. apply Hni. apply IHi. exact Hin.
        -- apply IHn. exact Hnd'.
Qed.

Lemma checkPass_length (ev : alert -> outcome) (now : string)
  (entries : list (string * nat)) (st : alertService * list (string * outcome)) :
  length (heap (fold_left (checkOne ev now) entries st).1) = length (heap st.1)
  /\ alerts (fold_left (checkOne ev now) entries st).1 = alerts st.1.
Proof.
  revert st. induction entries as [|[k r] entries IH]; intros [s log];
    cbn [fold_left].
  - split; reflexivity.
  - destruct (IH (checkOne ev now (s, log) (k, r))) as [IH1 IH2].
    rewrite IH1, IH2. unfold checkOne.
    destruct (heap s !! r) as [b|] eqn:E; [|split; reflexivity].
    destruct (negb (String.eqb (a_status b) "active") || a_triggered b);
      [split; reflexivity|].
    destruct (ev b) as [[]|]; simpl; [|split; reflexivity|split; reflexivity].
    unfold triggerAlert. rewrite E. simpl. rewrite length_insert.
    split; reflexivity.
Qed.

Lemma step_alerts_wf (s s' : alertService) :
  step s s' -> alerts_wf s -> alerts_wf s'.
Proof.
  intros Hs [Hnd Hlt]. destruct Hs as [alertId now d s|alertId s|ev now s].
  - simpl. split.
    + apply map_set_NoDup; [|exact Hnd].
      intros Hin. specialize (Hlt _ Hin). lia.
    + intros r Hr. cbn [heap alerts] in *. rewrite length_app. simpl.
      apply map_set_snd in Hr as [->|Hr]; [lia|]. specialize (Hlt _ Hr). lia.
  - unfold deleteAlert.
    destruct (map_delete_snd alertId (alerts s)) as [Hi Hn].
    destruct (map_delete String.eqb alertId (alerts s)) as [b m] eqn:E.
    simpl in *. split; [exact (Hn Hnd)|]. intros r Hr. apply Hlt, Hi, Hr.
  - unfold checkAlerts.
    destruct (checkPass_length ev now (alerts s) (s, [])) as [H1 H2].
    simpl in H1, H2. unfold alerts_wf. rewrite H1, H2. split; assumption.
Qed.

Lemma reachable_alerts_wf (s : alertService) : reachable s -> alerts_wf s.
Proof.
  unfold reachable. intros H.
  assert (H0 : alerts_wf emptyService).
  { split; [constructor|intros r []]. }
  induction H as [|s1 s2 s3 H12 _ IH]; [exact H0|].
  apply IH. exact (step_alerts_wf _ _ H12 H0).
Qed.

(** *** One pass of [checkAlerts] *)

Lemma checkOne_spec (ev : alert -> outcome) (now : string) (s : alertService)
  (log : list (string * outcome)) (k : string) (r : nat) :
  (forall r', r' <> r -> heap (checkOne ev now (s, log) (k, r)).1 !! r'
                         = heap s !! r') /\
  map fst (checkOne ev now (s, log) (k, r)).2
    = map fst log ++ (if due s (k, r) then [k] else []) /\
  (forall a, heap s !! r = Some a -> ev a = Threw ->
             heap (checkOne ev now (s, log) (k, r)).1 !! r = Some a).
Proof.
  unfold checkOne, due. simpl.
  destruct (heap s !! r) as [b|] eqn:E.
  2: { rewrite app_nil_r. split; [reflexivity|]. split; [reflexivity|].
       intros a Ha. discriminate. }
  destruct (String.eqb (a_status b) "active"), (a_triggered b); simpl.
  1, 3, 4: rewrite app_nil_r; split; [reflexivity|]; split;
    [reflexivity|intros a Ha _; congruence].
  destruct (ev b) as [[]|] eqn:Eev; simpl.
  - split.
    + intros r' Hne. unfold triggerAlert. rewrite E. simpl.
      apply list_lookup_insert_ne. congruence.
    + split; [rewrite map_app; reflexivity|].
      intros a Ha Hth. injection Ha as <-. congruence.
  - split; [reflexivity|]. split; [rewrite map_app; reflexivity|].
    intros a Ha _. congruence.
  - split; [reflexivity|]. split; [rewrite map_app; reflexivity|].
    intros a Ha _. congruence.
Qed.

Lemma checkPass_spec (ev : alert -> outcome) (now : string)
  (entries : list (string * nat)) (s : alertService)
  (log : list (string * outcome)) :
  List.NoDup (map snd entries) ->
  map fst (fold_left (checkOne ev now) entries (s, log)).2
    = map fst log ++ map fst (List.filter (due s) entries) /\
  (forall k r a, In (k, r) entries -> heap s !! r = Some a -> ev a = Threw ->
     heap (fold_left (checkOne ev now) entries (s, log)).1 !! r = Some a) /\
  (forall r, ~ In r (map snd entries) ->
     heap (fold_left (checkOne ev now) entries (s, log)).1 !! r = heap s !! r).
Proof.
  revert s log.
  induction entries as [|[k r] rest IH]; intros s log Hnd; cbn [fold_left].
  - simpl. rewrite app_nil_r. split; [reflexivity|].
    split; [intros ? ? ? []|intros; reflexivity].
  - inversion Hnd as [|? ? Hr Hnd']; subst. simpl in Hr.
    destruct (checkOne_spec ev now s log k r) as (Hoth & Hlog & Hthr).
    destruct (checkOne ev now (s, log) (k, r)) as [s1 log1] eqn:E1.
    simpl in Hoth, Hlog, Hthr.
    destruct (IH s1 log1 Hnd') as (IHlog & IHthr & IHoth).
    assert (Hdue : List.filter (due s1) rest = List.filter (due s) rest).
    { apply filter_ext_in. intros [k' r'] Hin. unfold due. simpl.
      rewrite Hoth; [reflexivity|].
      intros ->. apply Hr. apply (in_map snd _ _ Hin). }
    split; [|split].
    + rewrite IHlog, Hlog, Hdue. simpl.
      destruct (due s (k, r)); simpl; rewrite <- app_assoc; reflexivity.
    + intros k' r' a [Heq|Hin] Ha Hth.
      * injection Heq as <- <-. rewrite IHoth by exact Hr. exact (Hthr a Ha Hth).
      * assert (Hne : r' <> r).
        { intros ->. apply Hr. apply (in_map snd _ _ Hin). }
        apply (IHthr k' r' a Hin); [|exact Hth]. rewrite Hoth by exact Hne.
        exact Ha.
    + intros r' Hr'. simpl in Hr'.
      rewrite IHoth by (intros Hin; apply Hr'; right; exact Hin).
      apply Hoth. intros ->. apply Hr'. left. reflexivity.
Qed.

(** C3: in a pass of [checkAlerts] over a reachable registry, whatever the
    data provider answers or throws, every alert due at the start of the
    pass (active and not triggered) is evaluated, in order, and an alert
    whose evaluation throws is left unchanged: an exception is caught for
    that alert and the pass goes on with the next ones. *)
Theorem checkAlerts_isolates_failures (ev : alert -> outcome) (now : string)
  (s : alertService) :
  reachable s ->
  map fst (checkAlerts ev now s).2
    = map fst (List.filter (due s) (alerts s)) /\
  (forall k r a, In (k, r) (alerts s) -> heap s !! r = Some a -> ev a = Threw ->
     heap (checkAlerts ev now s).1 !! r = Some a).
Proof.
  intros Hreach. destruct (reachable_alerts_wf s Hreach) as [Hnd _].
  destruct (checkPass_spec ev now (alerts s) s [] Hnd) as (Hlog & Hthr & _).
  unfold checkAlerts. split; [exact Hlog|exact Hthr].
Qed.

Lemma checkAlerts_isolates_failures_witness :
  reachable sampleTwoAlerts /\
  map fst (checkAlerts failFirst "t2" sampleTwoAlerts).2
    = map fst (List.filter (due sampleTwoAlerts) (alerts sampleTwoAlerts)) /\
  (forall k r a, In (k, r) (alerts sampleTwoAlerts) ->
     heap sampleTwoAlerts !! r = Some a -> failFirst a = Threw ->
     heap (checkAlerts failFirst "t2" sampleTwoAlerts).1 !! r = Some a).
Proof.
  assert (Hreach : reachable sampleTwoAlerts).
  { unfold reachable, sampleTwoAlerts.
    eapply rtc_l; [apply step_create|].
    eapply rtc_l; [apply step_create|]. apply rtc_refl. }
  split; [exact Hreach|].
  apply (checkAlerts_isolates_failures failFirst "t2" sampleTwoAlerts Hreach).
Defined.

(* ================================================================== *)
(** * Further properties of the code *)

(** ** Risk levels *)

Lemma num_ge_fin (q t : Q) : num_ge (Fin q) (Fin t) = Qle_bool t q.
Proof. unfold num_ge, num_lt. destruct (Qle_bool t q); reflexivity. Qed.

Ltac qle_bool_props :=
  repeat match goal with
         | H : Qle_bool _ _ = true |- _ => apply Qle_bool_iff in H
         | H : Qle_bool ?a ?b = false |- _ =>
             let Hn := fresh "Hn" in
             assert (Hn : ~ a <= b)
               by (let Hc := fresh "Hc" in
                   intros Hc; apply Qle_bool_iff in Hc; congruence);
             clear H
         end.

(** [getRiskLevel] is monotone: a larger score never gets a lower level. *)
Theorem getRiskLevel_monotone (a b : Q) :
  a <= b ->
  (level_rank (getRiskLevel (Fin a)) <= level_rank (getRiskLevel (Fin b)))%nat.
Proof.
  intros Hab. unfold getRiskLevel. rewrite !num_ge_fin.
  destruct (Qle_bool 75 a) eqn:?, (Qle_bool 50 a) eqn:?, (Qle_bool 25 a) eqn:?,
    (Qle_bool 75 b) eqn:?, (Qle_bool 50 b) eqn:?, (Qle_bool 25 b) eqn:?;
    simpl; try lia; qle_bool_props; exfalso; lra.
Qed.

Lemma getRiskLevel_monotone_witness :
  (3 # 2) <= 60 /\
  (level_rank (getRiskLevel (Fin (3 # 2))) <= level_rank (getRiskLevel (Fin 60)))%nat.
Proof.
  assert (H : (3 # 2) <= 60) by (vm_compute; discriminate).
  split; [exact H|]. exact (getRiskLevel_monotone _ _ H).
Defined.

(** ** Diversification *)

Ltac nat_bool_props :=
  repeat match goal with
         | H : (_ =? _)%nat = true |- _ => apply Nat.eqb_eq in H
         | H : (_ =? _)%nat = false |- _ => apply Nat.eqb_neq in H
         | H : (_ <=? _)%nat = true |- _ => apply Nat.leb_le in H
         | H : (_ <=? _)%nat = false |- _ => apply Nat.leb_gt in H
         end.

(** For portfolios of at least one token, the diversification sub-score
    never increases when the number of tokens grows. *)
Theorem diversification_nonincreasing (tokens tokens' : list token) :
  (1 <= length tokens <= length tokens')%nat ->
  exists d d', div_score (calculateDiversificationRisk tokens) = Fin d /\
               div_score (calculateDiversificationRisk tokens') = Fin d' /\
               d' <= d.
Proof.
  intros Hlen. unfold calculateDiversificationRisk. cbv beta zeta.
  cbn [div_score].
  destruct (length tokens =? 1)%nat eqn:?, (length tokens =? 2)%nat eqn:?,
    (length tokens <=? 5)%nat eqn:?, (length tokens <=? 10)%nat eqn:?,
    (length tokens' =? 1)%nat eqn:?, (length tokens' =? 2)%nat eqn:?,
    (length tokens' <=? 5)%nat eqn:?, (length tokens' <=? 10)%nat eqn:?;
    nat_bool_props;
    do 2 eexists; (split; [reflexivity|]); (split; [reflexivity|]);
    first [lra | exfalso; lia].
Qed.

Lemma diversification_nonincreasing_witness :
  (1 <= length [mkToken "BTC" 1 1; mkToken "ETH" 1 1] <=
   length [mkToken "BTC" 1 1; mkToken "ETH" 1 1; mkToken "SOL" 1 1])%nat /\
  exists d d',
    div_score (calculateDiversificationRisk [mkToken "BTC" 1 1; mkToken "ETH" 1 1])
      = Fin d /\
    div_score (calculateDiversificationRisk
      [mkToken "BTC" 1 1; mkToken "ETH" 1 1; mkToken "SOL" 1 1]) = Fin d' /\
    d' <= d.
Proof.
  assert (H : (1 <= length [mkToken "BTC" 1 1; mkToken "ETH" 1 1] <=
     length [mkToken "BTC" 1 1; mkToken "ETH" 1 1; mkToken "SOL" 1 1])%nat)
    by (simpl; lia).
  split; [exact H|]. exact (diversification_nonincreasing _ _ H).
Defined.

(** ** Transaction risk *)

(** [shouldAlert] is set exactly when the transaction scores at least 50. *)
Theorem shouldAlert_iff_score_50 (tx : transaction) :
  exists q, tx_score (assessTransactionRisk tx) = Fin q /\
            (shouldAlert (assessTransactionRisk tx) = true <-> 50 <= q).
Proof.
  destruct (assessTransactionRisk_points tx) as (q & Hs & _ & Hl).
  exists q. split; [exact Hs|].
  assert (Hsa : shouldAlert (assessTransactionRisk tx) =
                match tx_level (assessTransactionRisk tx) with
                | HIGH | CRITICAL => true | _ => false end).
  { unfold assessTransactionRisk.
    destruct (num_gt (tx_value tx) (Fin 10000));
    destruct (num_gt (gasUsed tx) (Fin 500000));
    destruct (tokenTransfers tx) as [l|];
    try destruct (5 <? length l)%nat;
    destruct (to tx) as [a|];
    try destruct (truthy (JString a) && negb (isKnownContract a));
    reflexivity. }
  rewrite Hsa, Hl. unfold getRiskLevel. rewrite !num_ge_fin.
  destruct (Qle_bool 75 q) eqn:?, (Qle_bool 50 q) eqn:?, (Qle_bool 25 q) eqn:?;
    qle_bool_props; split; intros Hx;
    first [reflexivity | discriminate | lra | exfalso; lra].
Qed.

(** ** Sorting the holdings *)

Lemma insert_desc_perm (x : token) (l : list token) :
  Permutation (x :: l) (insert_desc x l).
Proof.
  induction l as [|y ys IH]; simpl; [reflexivity|].
  destruct (Qlt_le_dec (valueUSD y) (valueUSD x)); [reflexivity|].
  rewrite perm_swap. constructor. exact IH.
Qed.

Lemma insert_desc_hd (a x : token) (l : list token) :
  HdRel value_desc a l -> value_desc a x -> HdRel value_desc a (insert_desc x l).
Proof.
  intros Hhd Hax. destruct l as [|y ys]; simpl.
  - constructor. exact Hax.
  - destruct (Qlt_le_dec (valueUSD y) (valueUSD x)); constructor; [exact Hax|].
    inversion Hhd; assumption.
Qed.

Lemma insert_desc_sorted (x : token) (l : list token) :
  Sorted value_desc l -> Sorted value_desc (insert_desc x l).
Proof.
  induction l as [|y ys IH]; intros Hs; simpl.
  - repeat constructor.
  - inversion Hs as [|? ? Hys Hhd]; subst.
    destruct (Qlt_le_dec (valueUSD y) (valueUSD x)) as [Hlt|Hge].
    + constructor; [exact Hs|]. constructor. unfold value_desc. lra.
    + constructor; [exact (IH Hys)|]. apply insert_desc_hd; [exact Hhd|exact Hge].
Qed.

Lemma sort_desc_fold (l acc : list token) :
  Sorted value_desc acc ->
  Permutation (rev l ++ acc) (fold_left (fun acc t => insert_desc t acc) l acc) /\
  Sorted value_desc (fold_left (fun acc t => insert_desc t acc) l acc).
Proof.
  revert acc. induction l as [|t l IH]; intros acc Hs; simpl.
  - split; [reflexivity|exact Hs].
  - destruct (IH (insert_desc t acc) (insert_desc_sorted t acc Hs)) as [Hp Hs'].
    split; [|exact Hs'].
    rewrite <- Hp, <- app_assoc. simpl.
    apply Permutation_app_head. apply insert_desc_perm.
Qed.

Lemma sort_desc_sorted_perm_aux (tokens : list token) :
  Permutation tokens (sort_desc tokens) /\
  StronglySorted value_desc (sort_desc tokens).
Proof.
  destruct (sort_desc_fold tokens [] (Sorted_nil _)) as [Hp Hs].
  rewrite app_nil_r in Hp. split.
  - rewrite <- Hp. apply Permutation_rev.
  - apply Sorted_StronglySorted; [|exact Hs].
    intros x y z Hxy Hyz. unfold value_desc in *. lra.
Qed.

Lemma sort_desc_head_max (tokens : list token) (t : token) :
  In t tokens ->
  exists h rest, sort_desc tokens = h :: rest /\ valueUSD t <= valueUSD h.
Proof.
  intros Hin.
  destruct (sort_desc_sorted_perm_aux tokens) as [Hp Hs].
  pose proof (Permutation_in _ Hp Hin) as Hin'.
  destruct (sort_desc tokens) as [|h rest]; [destruct Hin'|].
  exists h, rest. split; [reflexivity|].
  destruct Hin' as [<-|Hr]; [apply Qle_refl|].
  apply StronglySorted_inv in Hs as [_ Hf].
  rewrite List.Forall_forall in Hf. exact (Hf t Hr).
Qed.

(** The copy of the holdings that [calculateConcentrationRisk] sorts is a
    permutation of them, ordered by descending [valueUSD]. *)
Theorem sort_desc_sorted_perm (tokens : list token) :
  Permutation tokens (sort_desc tokens) /\
  StronglySorted value_desc (sort_desc tokens).
Proof. exact (sort_desc_sorted_perm_aux tokens). Qed.

Lemma concentration_dominant (tokens : list token) (t : token) :
  0 < sumQ tokens -> In t tokens -> 70 * sumQ tokens < 100 * valueUSD t ->
  conc_score (calculateConcentrationRisk tokens) = Fin 25.
Proof.
  intros Hpos Hin Hdom.
  destruct (sort_desc_head_max tokens t Hin) as (h & rest & Hs & Hle).
  destruct (totalValueOf_fin tokens) as (T & HT & ET).
  assert (HTb : Qeq_bool T 0 = false).
  { destruct (Qeq_bool T 0) eqn:E; [|reflexivity].
    apply Qeq_bool_iff in E. lra. }
  assert (Hq : 7 # 10 < valueUSD h / T).
  { apply Qlt_shift_div_l; lra. }
  unfold calculateConcentrationRisk. rewrite HT, Hs. cbv beta zeta.
  cbn [num_div]. rewrite HTb. cbn [num_mul conc_score]. unfold num_gt, num_lt.
  destruct (Qle_bool (valueUSD h / T * 100) 70) eqn:E; [|reflexivity].
  apply Qle_bool_iff in E. lra.
Qed.

Lemma Qeq_bool_nonzero (T : Q) : 0 < T -> Qeq_bool T 0 = false.
Proof.
  intros HT. destruct (Qeq_bool T 0) eqn:E; [|reflexivity].
  apply Qeq_bool_iff in E. lra.
Qed.

Lemma volatility_step_lower (T : Q) (acc : volatilityAcc) (t : token) (a : Q) :
  0 < T -> 0 <= valueUSD t -> volatilityScore acc = Fin a ->
  exists a', volatilityScore (volatility_step (Fin T) acc t) = Fin a' /\
             a + valueUSD t / T * 100 * (1 # 20) <= a'.
Proof.
  intros HT Hv Ha.
  pose proof (Qdiv_nonneg _ _ Hv HT) as Hp.
  unfold volatility_step. cbn [num_div]. rewrite (Qeq_bool_nonzero T HT).
  cbn [num_mul].
  destruct (isStablecoin (symbol t)); [|destruct (isBluechip (symbol t));
    [|destruct (isMemecoin (symbol t))]]; cbn [volatilityScore]; rewrite Ha;
  cbn [num_mul num_add]; eexists; (split; [reflexivity|]); lra.
Qed.

Lemma volatility_fold_lower (T : Q) (l : list token) (acc : volatilityAcc)
  (a : Q) :
  0 < T -> Forall (fun t => 0 <= valueUSD t) l -> volatilityScore acc = Fin a ->
  exists a', volatilityScore (fold_left (volatility_step (Fin T)) l acc) = Fin a'
             /\ a + sumQ l / T * 100 * (1 # 20) <= a'.
Proof.
  intros HT. revert acc a. induction l as [|t l IH]; intros acc a Hl Ha; simpl.
  - exists a. split; [exact Ha|]. unfold Qdiv. lra.
  - inversion Hl as [|? ? Ht Hl']; subst.
    destruct (volatility_step_lower T acc t a HT Ht Ha) as (b & Hb & Hb1).
    destruct (IH _ b Hl' Hb) as (c & Hc & Hc1).
    exists c. split; [exact Hc|]. unfold Qdiv in *. lra.
Qed.

Lemma volatility_score_bounds (tokens : list token) :
  Forall (fun t => 0 <= valueUSD t) tokens -> 0 < sumQ tokens ->
  exists v, vol_score (calculateVolatilityRisk tokens) = Fin v /\
            3 # 2 <= v <= 15.
Proof.
  intros Hnn Hpos.
  destruct (totalValueOf_fin tokens) as (T & HT & ET).
  assert (HT0 : 0 < T) by lra.
  destruct (volatility_fold_lower T tokens volatility_init 0 HT0 Hnn eq_refl)
    as (a & Ha & Ha1).
  destruct (volatility_fold_bound T tokens volatility_init 0 HT0 Hnn eq_refl)
    as (a' & Ha' & Ha2 & Ha3).
  rewrite Ha in Ha'. injection Ha' as <-.
  assert (Hd : sumQ tokens / T == 1).
  { rewrite <- ET. unfold Qdiv. apply Qmult_inv_r. lra. }
  rewrite Hd in Ha1, Ha3.
  unfold calculateVolatilityRisk. rewrite HT. cbv zeta. cbn [vol_score].
  rewrite Ha. cbn [num_div]. rewrite (Qeq_bool_nonzero 100) by lra.
  cbn [num_mul]. eexists. split; [reflexivity|]. unfold Qdiv.
  change (/ 100) with (1 # 100). lra.
Qed.

(** When every holding is worth at least 100 USD and is a known stablecoin
    or bluechip, no holding is counted illiquid and the liquidity score is
    2, the lowest. *)
Theorem liquidity_all_liquid (tokens : list token) :
  Forall (fun t => 100 <= valueUSD t /\ isLowLiquidityToken (symbol t) = false)
    tokens ->
  illiquidTokens (calculateLiquidityRisk tokens) = 0%nat /\
  liq_score (calculateLiquidityRisk tokens) = Fin 2.
Proof.
  intros Hall.
  assert (E : fold_left liquidity_step tokens (0%nat, Fin 0) = (0%nat, Fin 0)).
  { induction Hall as [|t l [Hv Hl] _ IH]; [reflexivity|].
    cbn [fold_left]. unfold liquidity_step at 2.
    destruct (Qlt_le_dec (valueUSD t) 100); [lra|]. rewrite Hl. exact IH. }
  unfold calculateLiquidityRisk. rewrite E. cbv zeta.
  cbn [illiquidTokens liq_score]. split; [reflexivity|].
  destruct (totalValueOf_fin tokens) as (T & -> & _).
  cbn [num_div]. destruct (Qeq_bool T 0) eqn:ET; [reflexivity|].
  cbn [num_mul]. unfold num_gt, num_lt.
  assert (Hz : 0 / T * 100 == 0) by (unfold Qdiv; ring).
  assert (E50 : Qle_bool (0 / T * 100) 50 = true) by (apply Qle_bool_iff; lra).
  rewrite E50; cbn [negb].
  assert (E25 : Qle_bool (0 / T * 100) 25 = true) by (apply Qle_bool_iff; lra).
  rewrite E25; cbn [negb].
  assert (E10 : Qle_bool (0 / T * 100) 10 = true) by (apply Qle_bool_iff; lra).
  rewrite E10; cbn [negb].
  reflexivity.
Qed.

Lemma liquidity_all_liquid_witness :
  Forall (fun t => 100 <= valueUSD t /\ isLowLiquidityToken (symbol t) = false)
    [mkToken "eth" 1 3000; mkToken "USDC" 500 500] /\
  illiquidTokens (calculateLiquidityRisk [mkToken "eth" 1 3000; mkToken "USDC" 500 500]) = 0%nat /\
  liq_score (calculateLiquidityRisk [mkToken "eth" 1 3000; mkToken "USDC" 500 500]) = Fin 2.
Proof.
  assert (H : Forall (fun t => 100 <= valueUSD t /\ isLowLiquidityToken (symbol t) = false)
                [mkToken "eth" 1 3000; mkToken "USDC" 500 500]).
  { repeat constructor; simpl; try discriminate; vm_compute; reflexivity. }
  split; [exact H|]. exact (liquidity_all_liquid _ H).
Defined.

(** ** Recommendations *)

Lemma toFixed1_100 (q : Q) : q == 100 -> toFixed1 (Fin q) = Fin (inject_Z 1000 / 10).
Proof.
  intros Hq. unfold toFixed1.
  destruct (Qlt_le_dec q 0) as [Hlt|_]; [lra|].
  assert (Hf : Qfloor (q * 10 + (1 # 2)) = Qfloor (1000 + (1 # 2))).
  { apply Qfloor_comp. rewrite Hq. reflexivity. }
  rewrite Hf. reflexivity.
Qed.

(** A portfolio of a single holding with a positive value is always rated
    HIGH or CRITICAL, and its recommendations include the urgent
    rebalancing, more diversification and the single-asset concentration
    warning. *)
Theorem single_holding_high_risk (t : token) :
  0 < valueUSD t ->
  (risk_level (calculatePortfolioRisk [t]) = HIGH \/
   risk_level (calculatePortfolioRisk [t]) = CRITICAL) /\
  In rec_rebalance (portfolioRecommendations [t]) /\
  In rec_diversify (portfolioRecommendations [t]) /\
  In rec_concentrated (portfolioRecommendations [t]).
Proof.
  intros Hv.
  assert (Hs : 0 < sumQ [t]) by (simpl; lra).
  assert (Hnn : Forall (fun t => 0 <= valueUSD t) [t]) by (repeat constructor; lra).
  destruct (volatility_score_bounds [t] Hnn Hs) as (vv & Hvv & Bvv).
  assert (Hc : conc_score (calculateConcentrationRisk [t]) = Fin 25).
  { apply (concentration_dominant [t] t Hs); [left; reflexivity|simpl; lra]. }
  destruct (calculateLiquidityRisk_range [t]) as (l & Hl & Bl).
  assert (Hlvl : risk_level (calculatePortfolioRisk [t]) =
                 getRiskLevel (Fin (0 + 25 + vv + 25 + l))).
  { change (risk_level (calculatePortfolioRisk [t]))
      with (getRiskLevel (subScoreSum (calculatePortfolioRisk [t]))).
    unfold subScoreSum. cbn [diversification volatility concentration liquidity
      calculatePortfolioRisk].
    rewrite Hvv, Hc, Hl. reflexivity. }
  assert (Hhi : risk_level (calculatePortfolioRisk [t]) = HIGH \/
                risk_level (calculatePortfolioRisk [t]) = CRITICAL).
  { rewrite Hlvl. unfold getRiskLevel. rewrite !num_ge_fin.
    assert (E : Qle_bool 50 (0 + 25 + vv + 25 + l) = true)
      by (apply Qle_bool_iff; lra).
    rewrite E. destruct (Qle_bool 75 (0 + 25 + vv + 25 + l)); auto. }
  assert (Htop : top1Percent (calculateConcentrationRisk [t]) =
                 Fin (valueUSD t / (0 + valueUSD t) * 100)).
  { unfold calculateConcentrationRisk. cbv zeta. cbn [top1Percent].
    change (sort_desc [t]) with [t]. unfold totalValueOf. cbn [fold_left num_add].
    cbn [num_div]. rewrite (Qeq_bool_nonzero (0 + valueUSD t)) by lra.
    reflexivity. }
  assert (Hfix : toFixed1 (top1Percent (calculateConcentrationRisk [t])) =
                 Fin (inject_Z 1000 / 10)).
  { rewrite Htop. apply toFixed1_100.
    rewrite Qplus_0_l. unfold Qdiv. rewrite Qmult_inv_r by lra. ring. }
  unfold portfolioRecommendations.
  change (diversification (calculatePortfolioRisk [t]))
    with (calculateDiversificationRisk [t]).
  change (concentration (calculatePortfolioRisk [t]))
    with (calculateConcentrationRisk [t]).
  unfold getRiskRecommendations. rewrite Hfix.
  change (div_tokenCount (calculateDiversificationRisk [t]) <? 3)%nat with true.
  change (num_gt (Fin (inject_Z 1000 / 10)) (Fin 50)) with true.
  split; [exact Hhi|].
  destruct Hhi as [-> | ->]; cbn [app]; repeat split.
  all: repeat first [left; reflexivity
                    | apply in_or_app; right; left; reflexivity | right].
Qed.

Lemma single_holding_high_risk_witness :
  0 < valueUSD (mkToken "USDC" 500 500) /\
  (risk_level (calculatePortfolioRisk [mkToken "USDC" 500 500]) = HIGH \/
   risk_level (calculatePortfolioRisk [mkToken "USDC" 500 500]) = CRITICAL) /\
  In rec_rebalance (portfolioRecommendations [mkToken "USDC" 500 500]) /\
  In rec_diversify (portfolioRecommendations [mkToken "USDC" 500 500]) /\
  In rec_concentrated (portfolioRecommendations [mkToken "USDC" 500 500]).
Proof.
  assert (H : 0 < valueUSD (mkToken "USDC" 500 500)) by reflexivity.
  split; [exact H|]. exact (single_holding_high_risk _ H).
Defined.

(** ** Cache *)

(** A value stored with a positive TTL is read back by [get] until its
    expiry time (inclusive), as itself when truthy and as [null] otherwise;
    the read leaves the cache unchanged. *)
Theorem cache_set_get (key : string) (v : jsval) (ttl : option Q) (now t : Q)
  (c : cacheService) :
  0 < default 300 ttl -> t <= now + default 300 ttl * 1000 ->
  cache_get key t (fst (cache_set key v ttl now c)) =
    (fst (cache_set key v ttl now c), if truthy v then v else JNull).
Proof.
  intros Hpos Ht. unfold cache_set. cbv zeta.
  destruct (Qlt_le_dec 0 (default 300 ttl)) as [_|Hle]; [|lra].
  unfold cache_get, isExpired. cbn [fst cache ttls].
  rewrite !lookup_insert_eq.
  destruct (Qeq_bool (now + default 300 ttl * 1000) 0); [reflexivity|].
  assert (E : Qle_bool t (now + default 300 ttl * 1000) = true)
    by (apply Qle_bool_iff; exact Ht).
  rewrite E. reflexivity.
Qed.

Lemma cache_set_get_witness :
  (0 < default 300 (Some 60) /\ 1000 <= 0 + default 300 (Some 60) * 1000) /\
  cache_get "k" 1000 (fst (cache_set "k" (JString "v") (Some 60) 0 emptyCache)) =
    (fst (cache_set "k" (JString "v") (Some 60) 0 emptyCache),
     if truthy (JString "v") then JString "v" else JNull).
Proof.
  assert (H : 0 < default 300 (Some 60) /\ 1000 <= 0 + default 300 (Some 60) * 1000).
  { split; vm_compute; [reflexivity|discriminate]. }
  split; [exact H|]. exact (cache_set_get _ _ _ _ _ _ (proj1 H) (proj2 H)).
Defined.

Lemma isExpired_set_other (key key' : string) (v : jsval) (ttl : option Q)
  (now t : Q) (c : cacheService) :
  key <> key' ->
  isExpired key' t (fst (cache_set key v ttl now c)) = isExpired key' t c.
Proof.
  intros Hne. unfold cache_set, isExpired. cbv zeta.
  destruct (Qlt_le_dec 0 (default 300 ttl)); cbn [fst ttls];
    [rewrite lookup_insert_ne by exact Hne|]; reflexivity.
Qed.

(** [set] on one key changes neither what [get] nor what [has] answers
    for any other key. *)
Theorem cache_set_other_key (key key' : string) (v : jsval) (ttl : option Q)
  (now t : Q) (c : cacheService) :
  key <> key' ->
  snd (cache_get key' t (fst (cache_set key v ttl now c))) =
    snd (cache_get key' t c) /\
  snd (cache_has key' t (fst (cache_set key v ttl now c))) =
    snd (cache_has key' t c).
Proof.
  intros Hne. unfold cache_get, cache_has.
  rewrite (isExpired_set_other key key' v ttl now t c Hne).
  destruct (isExpired key' t c); [split; reflexivity|].
  unfold cache_set. cbv zeta.
  destruct (Qlt_le_dec 0 (default 300 ttl)); cbn [fst snd cache];
    rewrite lookup_insert_ne by exact Hne; split; reflexivity.
Qed.

Lemma cache_set_other_key_witness :
  "a" <> "b" /\
  snd (cache_get "b" 5 (fst (cache_set "a" (JNumber (Fin 1)) None 0 emptyCache))) =
    snd (cache_get "b" 5 emptyCache) /\
  snd (cache_has "b" 5 (fst (cache_set "a" (JNumber (Fin 1)) None 0 emptyCache))) =
    snd (cache_has "b" 5 emptyCache).
Proof.
  assert (H : "a" <> "b") by discriminate.
  split; [exact H|]. exact (cache_set_other_key _ _ _ _ _ _ _ H).
Defined.

(** After [delete(key)], [get(key)] answers [null] and [has(key)] answers
    [false], at any time. *)
Theorem cache_delete_get_has (key : string) (t : Q) (c : cacheService) :
  snd (cache_get key t (fst (cache_delete key c))) = JNull /\
  snd (cache_has key t (fst (cache_delete key c))) = false.
Proof.
  unfold cache_get, cache_has, isExpired, cache_delete. cbn [fst snd cache ttls].
  rewrite !lookup_delete_eq. split; reflexivity.
Qed.

Lemma cleanExpired_loop_other (now : Q) (key : string)
  (l : list (string * Q)) (c : cacheService) :
  (forall e, In (key, e) l -> Qle_bool now e = true) ->
  let c' := fold_left (fun c '(key, expiresAt) =>
      if negb (Qle_bool now expiresAt) then
        {| cache := delete key (cache c); ttls := delete key (ttls c) |}
      else c) l c in
  cache c' !! key = cache c !! key /\ ttls c' !! key = ttls c !! key.
Proof.
  revert c. induction l as [|[k e] l IH]; intros c Hl; cbn zeta in *.
  - split; reflexivity.
  - cbn [fold_left].
    destruct (IH (if negb (Qle_bool now e) then
        {| cache := delete k (cache c); ttls := delete k (ttls c) |} else c))
      as [-> ->].
    + intros e' Hin. apply Hl. right. exact Hin.
    + destruct (Qle_bool now e) eqn:E; cbn [negb]; [split; reflexivity|].
      destruct (String.eq_dec k key) as [->|Hne].
      * rewrite (Hl e (or_introl eq_refl)) in E. discriminate.
      * cbn [cache ttls]. rewrite !lookup_delete_ne by exact Hne.
        split; reflexivity.
Qed.

Lemma cleanExpired_loop_gone (now : Q) (key : string)
  (l : list (string * Q)) (c : cacheService) :
  cache c !! key = None -> ttls c !! key = None ->
  let c' := fold_left (fun c '(key, expiresAt) =>
      if negb (Qle_bool now expiresAt) then
        {| cache := delete key (cache c); ttls := delete key (ttls c) |}
      else c) l c in
  cache c' !! key = None /\ ttls c' !! key = None.
Proof.
  revert c. induction l as [|[k e] l IH]; intros c H1 H2; cbn zeta in *.
  - split; assumption.
  - cbn [fold_left]. apply IH.
    + destruct (negb (Qle_bool now e)); [|exact H1].
      cbn [cache]. destruct (String.eq_dec k key) as [->|Hne];
        [apply lookup_delete_eq|rewrite lookup_delete_ne by exact Hne; exact H1].
    + destruct (negb (Qle_bool now e)); [|exact H2].
      cbn [ttls]. destruct (String.eq_dec k key) as [->|Hne];
        [apply lookup_delete_eq|rewrite lookup_delete_ne by exact Hne; exact H2].
Qed.

Lemma cleanExpired_loop_expired (now : Q) (key : string) (e : Q)
  (l : list (string * Q)) (c : cacheService) :
  In (key, e) l -> Qle_bool now e = false ->
  let c' := fold_left (fun c '(key, expiresAt) =>
      if negb (Qle_bool now expiresAt) then
        {| cache := delete key (cache c); ttls := delete key (ttls c) |}
      else c) l c in
  cache c' !! key = None /\ ttls c' !! key = None.
Proof.
  revert c. induction l as [|[k e'] l IH]; intros c Hin He; [destruct Hin|].
  destruct Hin as [Eq|Hin].
  - injection Eq as -> ->. cbn zeta. cbn [fold_left]. rewrite He. cbn [negb].
    apply cleanExpired_loop_gone; apply lookup_delete_eq.
  - exact (IH _ Hin He).
Qed.

Lemma cleanExpired_lookup_kept (now : Q) (key : string) (c : cacheService) :
  (forall e, ttls c !! key = Some e -> Qle_bool now e = true) ->
  cache (cleanExpired now c) !! key = cache c !! key /\
  ttls (cleanExpired now c) !! key = ttls c !! key.
Proof.
  intros H. apply cleanExpired_loop_other.
  intros e Hin. apply H. apply elem_of_map_to_list. apply list_elem_of_In. exact Hin.
Qed.

Lemma cleanExpired_lookup_removed (now : Q) (key : string) (e : Q)
  (c : cacheService) :
  ttls c !! key = Some e -> Qle_bool now e = false ->
  cache (cleanExpired now c) !! key = None /\
  ttls (cleanExpired now c) !! key = None.
Proof.
  intros H He. apply (cleanExpired_loop_expired now key e); [|exact He].
  apply list_elem_of_In. apply elem_of_map_to_list. exact H.
Qed.

(** When no stored expiry is 0, the periodic sweep [cleanExpired] at time
    [now] is invisible: at every later time [get] and [has] answer as they
    would without it. *)
Theorem cleanExpired_invisible (now t : Q) (key : string) (c : cacheService) :
  (forall k e, ttls c !! k = Some e -> ~ e == 0) -> now <= t ->
  snd (cache_get key t (cleanExpired now c)) = snd (cache_get key t c) /\
  snd (cache_has key t (cleanExpired now c)) = snd (cache_has key t c).
Proof.
  intros Hnz Ht.
  destruct (ttls c !! key) as [e|] eqn:Ee.
  - destruct (Qle_bool now e) eqn:He.
    + destruct (cleanExpired_lookup_kept now key c) as [Hc Htt].
      { intros e' E'. rewrite Ee in E'. injection E' as <-. exact He. }
      unfold cache_get, cache_has, isExpired. rewrite Hc, Htt, Ee.
      destruct (Qeq_bool e 0); [|destruct (Qle_bool t e)]; split; reflexivity.
    + destruct (cleanExpired_lookup_removed now key e c Ee He) as [Hc Htt].
      assert (E0 : Qeq_bool e 0 = false).
      { destruct (Qeq_bool e 0) eqn:E; [|reflexivity].
        apply Qeq_bool_iff in E. exfalso. exact (Hnz key e Ee E). }
      assert (Et : Qle_bool t e = false).
      { destruct (Qle_bool t e) eqn:E; [|reflexivity].
        apply Qle_bool_iff in E. rewrite <- He. symmetry. apply Qle_bool_iff. lra. }
      unfold cache_get, cache_has, isExpired. rewrite Hc, Htt, Ee, E0, Et.
      split; reflexivity.
  - destruct (cleanExpired_lookup_kept now key c) as [Hc Htt].
    { intros e' E'. rewrite Ee in E'. discriminate. }
    unfold cache_get, cache_has, isExpired. rewrite Hc, Htt, Ee. split; reflexivity.
Qed.

Lemma cleanExpired_invisible_witness :
  let c := fst (cache_set "k" (JString "v") (Some 1) 0 emptyCache) in
  ((forall k e, ttls c !! k = Some e -> ~ e == 0) /\ 5000 <= 6000) /\
  snd (cache_get "k" 6000 (cleanExpired 5000 c)) = snd (cache_get "k" 6000 c) /\
  snd (cache_has "k" 6000 (cleanExpired 5000 c)) = snd (cache_has "k" 6000 c).
Proof.
  cbv zeta.
  assert (H : (forall k e, ttls (fst (cache_set "k" (JString "v") (Some 1) 0 emptyCache))
                 !! k = Some e -> ~ e == 0) /\ 5000 <= 6000).
  { split; [|vm_compute; discriminate].
    intros k e Hk.
    change (ttls (fst (cache_set "k" (JString "v") (Some 1) 0 emptyCache)))
      with (<["k" := 0 + 1 * 1000]> (∅ : gmap string Q)) in Hk.
    destruct (String.eq_dec k "k") as [->|Hne].
    - rewrite lookup_insert_eq in Hk. injection Hk as <-. vm_compute. discriminate.
    - rewrite lookup_insert_ne in Hk by congruence. discriminate. }
  split; [exact H|]. exact (cleanExpired_invisible _ _ _ _ (proj1 H) (proj2 H)).
Defined.

Lemma cache_delete_wf (key : string) (c : cacheService) :
  cache_wf c -> cache_wf (fst (cache_delete key c)).
Proof.
  intros Hwf k e Hk. unfold cache_delete in *. cbn [fst cache ttls] in *.
  destruct (String.eq_dec key k) as [->|Hne].
  - rewrite lookup_delete_eq in Hk. discriminate.
  - rewrite lookup_delete_ne in Hk by exact Hne.
    rewrite lookup_delete_ne by exact Hne. exact (Hwf k e Hk).
Qed.

Lemma cache_step_wf (c c' : cacheService) :
  cache_step c c' -> cache_wf c -> cache_wf c'.
Proof.
  intros Hs Hwf. destruct Hs as [key v ttl now c|key now c|key now c|key c|c|now c].
  - intros k e Hk. unfold cache_set in *. cbv zeta in *.
    destruct (String.eq_dec key k) as [->|Hne].
    + destruct (Qlt_le_dec 0 (default 300 ttl)); cbn [fst cache];
        rewrite lookup_insert_eq; eexists; reflexivity.
    + destruct (Qlt_le_dec 0 (default 300 ttl)); cbn [fst cache ttls] in *;
        [rewrite lookup_insert_ne in Hk by exact Hne|];
        rewrite lookup_insert_ne by exact Hne; exact (Hwf k e Hk).
  - unfold cache_get. destruct (isExpired key now c);
      [apply cache_delete_wf; exact Hwf|exact Hwf].
  - unfold cache_has. destruct (isExpired key now c);
      [apply cache_delete_wf; exact Hwf|exact Hwf].
  - apply cache_delete_wf; exact Hwf.
  - intros k e Hk. cbn in Hk. discriminate.
  - intros k e Hk.
    destruct (ttls c !! k) as [e'|] eqn:Ee.
    + destruct (Qle_bool now e') eqn:He.
      * destruct (cleanExpired_lookup_kept now k c) as [Hc Ht].
        { intros e'' E''. rewrite Ee in E''. injection E'' as <-. exact He. }
        rewrite Hc. rewrite Ht in Hk. exact (Hwf k e Hk).
      * destruct (cleanExpired_lookup_removed now k e' c Ee He) as [_ Ht].
        rewrite Ht in Hk. discriminate.
    + destruct (cleanExpired_lookup_kept now k c) as [_ Ht].
      { intros e'' E''. rewrite Ee in E''. discriminate. }
      rewrite Ht, Ee in Hk. discriminate.
Qed.

(** Whatever sequence of [set], [get], [has], [delete], [clear] and
    [cleanExpired] calls is made on a new service, every key that carries an
    expiry in [this.ttls] also has a value in [this.cache]. *)
Theorem cache_ttls_have_values (c : cacheService) :
  rtc cache_step emptyCache c ->
  forall key e, ttls c !! key = Some e -> is_Some (cache c !! key).
Proof.
  intros Hr. change (cache_wf c).
  assert (H0 : cache_wf emptyCache) by (intros k e Hk; discriminate).
  revert H0. induction Hr as [x|x y z Hxy Hyz IH]; intros Hx; [exact Hx|].
  apply IH. exact (cache_step_wf x y Hxy Hx).
Qed.

Lemma cache_ttls_have_values_witness :
  let c := cleanExpired 2000 (fst (cache_set "k" (JString "v") (Some 1) 0 emptyCache)) in
  rtc cache_step emptyCache c /\
  forall key e, ttls c !! key = Some e -> is_Some (cache c !! key).
Proof.
  cbv zeta.
  assert (H : rtc cache_step emptyCache
    (cleanExpired 2000 (fst (cache_set "k" (JString "v") (Some 1) 0 emptyCache)))).
  { eapply rtc_l; [apply cs_set|]. apply rtc_once. apply cs_clean. }
  split; [exact H|]. exact (cache_ttls_have_values _ H).
Defined.

(** ** Alert registry *)

Lemma addressMatches_lower (address address' : string) (a : alert) :
  toLowerCase address = toLowerCase address' ->
  addressMatches address a = addressMatches address' a.
Proof.
  intros E. unfold addressMatches. destruct (a_address a); try reflexivity.
  rewrite E. reflexivity.
Qed.

Lemma collectByAddress_lower {K} (address address' : string) (hp : list alert)
  (m : list (K * nat)) :
  toLowerCase address = toLowerCase address' ->
  collectByAddress address hp m = collectByAddress address' hp m.
Proof.
  intros E. induction m as [|[k r] m IH]; [reflexivity|]. cbn [collectByAddress].
  rewrite IH. destruct (hp !! r) as [a|]; [|reflexivity].
  rewrite (addressMatches_lower address address' a E). reflexivity.
Qed.

(** The address lookups ignore case: two addresses equal up to ASCII case
    get the same answer from [getAlertsByAddress] and from
    [getActiveAlerts]. *)
Theorem alert_lookups_ignore_case (address address' : string) (s : alertService) :
  toLowerCase address = toLowerCase address' ->
  getAlertsByAddress address s = getAlertsByAddress address' s /\
  getActiveAlerts address s = getActiveAlerts address' s.
Proof.
  intros E. unfold getAlertsByAddress, getActiveAlerts.
  rewrite !(collectByAddress_lower address address' _ _ E). split; reflexivity.
Qed.

Lemma alert_lookups_ignore_case_witness :
  toLowerCase "0xABC" = toLowerCase "0xabc" /\
  getAlertsByAddress "0xABC" sampleTriggered = getAlertsByAddress "0xabc" sampleTriggered /\
  getActiveAlerts "0xABC" sampleTriggered = getActiveAlerts "0xabc" sampleTriggered.
Proof.
  assert (H : toLowerCase "0xABC" = toLowerCase "0xabc") by reflexivity.
  split; [exact H|]. exact (alert_lookups_ignore_case _ _ _ H).
Defined.

Lemma getAlertsByAddress_bad_address (address : string)
  (s : alertService) (k : string) (r : nat) (a : alert) :
  In (k, r) (alerts s) -> heap s !! r = Some a ->
  (forall x, a_address a <> JString x) ->
  getAlertsByAddress address s = None.
Proof.
  intros Hin Ha Hbad. unfold getAlertsByAddress.
  induction (alerts s) as [|[k' r'] m IH]; [destruct Hin|].
  cbn [collectByAddress]. destruct Hin as [Eq|Hin].
  - injection Eq as -> ->. rewrite Ha. unfold addressMatches.
    destruct (a_address a) as [| | | |x|]; try reflexivity.
    exfalso. exact (Hbad x eq_refl).
  - rewrite (IH Hin). destruct (heap s !! r'); [|reflexivity].
    destruct (addressMatches address a0) as [[]|]; reflexivity.
Qed.

(** A single stored alert whose [address] is not a string makes
    [getAlertsByAddress] throw for every address: [alert.address.toLowerCase]
    is not a function. *)
Theorem getAlertsByAddress_throws_on_bad_address (address : string)
  (s : alertService) (k : string) (r : nat) (a : alert) :
  In (k, r) (alerts s) -> heap s !! r = Some a ->
  (forall x, a_address a <> JString x) ->
  getAlertsByAddress address s = None.
Proof. exact (getAlertsByAddress_bad_address address s k r a). Qed.

Lemma getAlertsByAddress_throws_on_bad_address_witness :
  let s := fst (createAlert "alert_3" "t1" missingAddressAlert sampleTwoAlerts) in
  (In ("alert_3", 2%nat) (alerts s) /\
   heap s !! 2%nat = Some (mkAlert (JString "alert_3") JUndefined (JString "PRICE")
      (JString "ABOVE") (JNumber (Fin (3 # 2))) (JString "AURA") "active" false
      "t1" None) /\
   (forall x, a_address (mkAlert (JString "alert_3") JUndefined (JString "PRICE")
      (JString "ABOVE") (JNumber (Fin (3 # 2))) (JString "AURA") "active" false
      "t1" None) <> JString x)) /\
  getAlertsByAddress "0xabc" s = None.
Proof.
  cbv zeta.
  assert (H : In ("alert_3", 2%nat)
      (alerts (fst (createAlert "alert_3" "t1" missingAddressAlert sampleTwoAlerts))) /\
    heap (fst (createAlert "alert_3" "t1" missingAddressAlert sampleTwoAlerts)) !! 2%nat
      = Some (mkAlert (JString "alert_3") JUndefined (JString "PRICE")
      (JString "ABOVE") (JNumber (Fin (3 # 2))) (JString "AURA") "active" false
      "t1" None) /\
    (forall x, a_address (mkAlert (JString "alert_3") JUndefined (JString "PRICE")
      (JString "ABOVE") (JNumber (Fin (3 # 2))) (JString "AURA") "active" false
      "t1" None) <> JString x)).
  { split; [vm_compute; right; right; left; reflexivity|].
    split; [reflexivity|]. intros x. discriminate. }
  split; [exact H|]. destruct H as (H1 & H2 & H3).
  exact (getAlertsByAddress_throws_on_bad_address _ _ _ _ _ H1 H2 H3).
Defined.

Lemma map_get_not_in {V} (k : string) (m : list (string * V)) :
  ~ In k (map fst m) -> map_get String.eqb k m = None.
Proof.
  induction m as [|[k' v'] m IH]; intros Hn; [reflexivity|]. simpl in *.
  destruct (String.eqb_spec k k') as [->|Hne]; [exfalso; apply Hn; left; reflexivity|].
  apply IH. intros Hin. apply Hn. right. exact Hin.
Qed.

Lemma map_set_fst {V} (k : string) (v : V) (m : list (string * V)) (x : string) :
  In x (map fst (map_set String.eqb k v m)) -> x = k \/ In x (map fst m).
Proof.
  induction m as [|[k' v'] m IH]; simpl.
  - intros [->|[]]. left. reflexivity.
  - destruct (String.eqb_spec k k') as [->|Hne]; simpl.
    + intros [->|H]; [right; left; reflexivity|right; right; exact H].
    + intros [->|H]; [right; left; reflexivity|].
      destruct (IH H) as [->|H']; [left; reflexivity|right; right; exact H'].
Qed.

Lemma map_set_keys_NoDup {V} (k : string) (v : V) (m : list (string * V)) :
  List.NoDup (map fst m) -> List.NoDup (map fst (map_set String.eqb k v m)).
Proof.
  induction m as [|[k' v'] m IH]; simpl; intros Hnd.
  - constructor; [intros []|constructor].
  - inversion Hnd as [|? ? Hni Hnd']; subst.
    destruct (String.eqb_spec k k') as [->|Hne]; simpl.
    + constructor; assumption.
    + constructor; [|exact (IH Hnd')].
      intros Hin. apply map_set_fst in Hin as [->|Hin]; [congruence|exact (Hni Hin)].
Qed.

Lemma map_delete_fst_incl {V} (k : string) (m : list (string * V)) :
  incl (map fst (map_delete String.eqb k m).2) (map fst m).
Proof.
  induction m as [|[k' v'] m IH]; simpl; [intros x []|].
  destruct (String.eqb k k'); simpl; [intros x Hx; right; exact Hx|].
  destruct (map_delete String.eqb k m) as [b m''] eqn:E. simpl in *.
  intros x [->|Hx]; [left; reflexivity|right; apply IH; exact Hx].
Qed.

Lemma map_delete_keys_NoDup {V} (k : string) (m : list (string * V)) :
  List.NoDup (map fst m) -> List.NoDup (map fst (map_delete String.eqb k m).2).
Proof.
  induction m as [|[k' v'] m IH]; simpl; intros Hnd; [exact Hnd|].
  inversion Hnd as [|? ? Hni Hnd']; subst.
  pose proof (map_delete_fst_incl k m) as Hinc.
  destruct (String.eqb k k'); simpl; [exact Hnd'|].
  destruct (map_delete String.eqb k m) as [b m''] eqn:E. simpl in *.
  constructor; [|exact (IH Hnd')]. intros Hin. apply Hni, Hinc, Hin.
Qed.

Lemma map_delete_spec {V} (k : string) (m : list (string * V)) :
  List.NoDup (map fst m) ->
  ((map_delete String.eqb k m).1 = true <-> is_Some (map_get String.eqb k m)) /\
  map_get String.eqb k (map_delete String.eqb k m).2 = None /\
  (forall k', k' <> k ->
     map_get String.eqb k' (map_delete String.eqb k m).2 = map_get String.eqb k' m).
Proof.
  induction m as [|[k' v'] m IH]; simpl; intros Hnd.
  - split; [split; [discriminate|intros [? H]; discriminate]|].
    split; [reflexivity|intros; reflexivity].
  - inversion Hnd as [|? ? Hni Hnd']; subst.
    destruct (String.eqb_spec k k') as [->|Hne]; simpl.
    + split; [split; [intros _; eexists; reflexivity|reflexivity]|].
      split; [exact (map_get_not_in k' m Hni)|].
      intros k2 Hk2. destruct (String.eqb_spec k2 k') as [->|_]; [congruence|].
      reflexivity.
    + destruct (IH Hnd') as (IH1 & IH2 & IH3).
      destruct (map_delete String.eqb k m) as [b m''] eqn:E. simpl in *.
      split; [exact IH1|]. split.
      * destruct (String.eqb_spec k k') as [->|_]; [congruence|exact IH2].
      * intros k2 Hk2. destruct (String.eqb k2 k'); [reflexivity|exact (IH3 k2 Hk2)].
Qed.

Lemma reachable_keys_NoDup (s : alertService) :
  reachable s -> List.NoDup (map fst (alerts s)).
Proof.
  unfold reachable. intros H.
  assert (H0 : List.NoDup (map fst (alerts emptyService))) by constructor.
  induction H as [|s1 s2 s3 H12 _ IH]; [exact H0|]. apply IH.
  destruct H12 as [alertId now d s|alertId s|ev now s].
  - apply map_set_keys_NoDup. exact H0.
  - unfold deleteAlert.
    pose proof (map_delete_keys_NoDup alertId (alerts s) H0) as Hn.
    destruct (map_delete String.eqb alertId (alerts s)) as [b m]. exact Hn.
  - unfold checkAlerts.
    destruct (checkPass_length ev now (alerts s) (s, [])) as [_ H2].
    simpl in H2. rewrite H2. exact H0.
Qed.

(** On a registry built by the service, [deleteAlert(id)] answers [true]
    exactly when [id] is registered; afterwards [id] is not registered and
    every other id keeps its entry. *)
Theorem deleteAlert_spec (alertId : string) (s : alertService) :
  reachable s ->
  let '(s', removed) := deleteAlert alertId s in
  (removed = true <-> is_Some (map_get String.eqb alertId (alerts s))) /\
  map_get String.eqb alertId (alerts s') = None /\
  (forall id', id' <> alertId ->
     map_get String.eqb id' (alerts s') = map_get String.eqb id' (alerts s)).
Proof.
  intros Hr. pose proof (map_delete_spec alertId (alerts s) (reachable_keys_NoDup s Hr))
    as (H1 & H2 & H3).
  unfold deleteAlert.
  destruct (map_delete String.eqb alertId (alerts s)) as [b m]. simpl in *.
  split; [exact H1|]. split; [exact H2|exact H3].
Qed.

Lemma deleteAlert_spec_witness :
  reachable sampleTwoAlerts /\
  let '(s', removed) := deleteAlert "alert_1" sampleTwoAlerts in
  (removed = true <-> is_Some (map_get String.eqb "alert_1" (alerts sampleTwoAlerts))) /\
  map_get String.eqb "alert_1" (alerts s') = None /\
  (forall id', id' <> "alert_1" ->
     map_get String.eqb id' (alerts s') = map_get String.eqb id' (alerts sampleTwoAlerts)).
Proof.
  assert (H : reachable sampleTwoAlerts).
  { unfold reachable, sampleTwoAlerts. eapply rtc_l; [apply step_create|].
    apply rtc_once. apply step_create. }
  split; [exact H|]. exact (deleteAlert_spec "alert_1" _ H).
Defined.

Lemma map_set_in {K V} (keqb : K -> K -> bool) (k : K) (v : V)
  (m : list (K * V)) (p : K * V) :
  In p (map_set keqb k v m) -> snd p = v \/ In p m.
Proof.
  induction m as [|[k' v'] m IH]; simpl.
  - intros [<-|[]]. left. reflexivity.
  - destruct (keqb k k'); simpl.
    + intros [<-|H]; [left; reflexivity|right; right; exact H].
    + intros [<-|H]; [right; left; reflexivity|].
      destruct (IH H) as [E|H']; [left; exact E|right; right; exact H'].
Qed.

Lemma collectByAddress_from {K} (address : string) (hp : list alert)
  (m : list (K * nat)) (l : list alert) :
  collectByAddress address hp m = Some l ->
  forall a, In a l -> exists k r, In (k, r) m /\ hp !! r = Some a.
Proof.
  revert l. induction m as [|[k r] m IH]; intros l Hc a Ha; cbn [collectByAddress] in Hc.
  - injection Hc as <-. destruct Ha.
  - destruct (hp !! r) as [b|] eqn:Eb.
    + destruct (addressMatches address b) as [[]|], (collectByAddress address hp m)
        as [rest|] eqn:Er; try discriminate; injection Hc as <-.
      * destruct Ha as [<-|Ha]; [exists k, r; split; [left; reflexivity|exact Eb]|].
        destruct (IH rest eq_refl a Ha) as (k' & r' & Hin & Hr).
        exists k', r'. split; [right; exact Hin|exact Hr].
      * destruct (IH rest eq_refl a Ha) as (k' & r' & Hin & Hr).
        exists k', r'. split; [right; exact Hin|exact Hr].
    + destruct (IH l Hc a Ha) as (k' & r' & Hin & Hr).
      exists k', r'. split; [right; exact Hin|exact Hr].
Qed.

Lemma triggerAlert_active_triggered (now : string) (r : nat) (s : alertService) :
  (forall k r', In (k, r') (activeAlerts s) ->
     exists a, heap s !! r' = Some a /\ a_triggered a = true) ->
  forall k r', In (k, r') (activeAlerts (triggerAlert now r s)) ->
     exists a, heap (triggerAlert now r s) !! r' = Some a /\ a_triggered a = true.
Proof.
  intros Hinv k r' Hin. unfold triggerAlert in *.
  destruct (heap s !! r) as [a|] eqn:Ea; [|exact (Hinv k r' Hin)].
  cbn [heap activeAlerts] in *.
  assert (Hlt : (r < length (heap s))%nat) by (apply lookup_lt_Some with a; exact Ea).
  destruct (Nat.eq_dec r' r) as [->|Hne].
  - eexists. split; [apply list_lookup_insert_eq; exact Hlt|reflexivity].
  - apply map_set_in in Hin as [E|Hin]; [simpl in E; congruence|].
    rewrite list_lookup_insert_ne by congruence. exact (Hinv k r' Hin).
Qed.

Lemma checkPass_active_triggered (ev : alert -> outcome) (now : string)
  (entries : list (string * nat)) (st : alertService * list (string * outcome)) :
  (forall k r', In (k, r') (activeAlerts st.1) ->
     exists a, heap st.1 !! r' = Some a /\ a_triggered a = true) ->
  forall k r', In (k, r') (activeAlerts (fold_left (checkOne ev now) entries st).1) ->
     exists a, heap (fold_left (checkOne ev now) entries st).1 !! r' = Some a /\
               a_triggered a = true.
Proof.
  revert st. induction entries as [|[k0 r0] entries IH]; intros [s log] Hinv;
    cbn [fold_left]; [exact Hinv|].
  apply IH. unfold checkOne.
  destruct (heap s !! r0) as [b|]; [|exact Hinv].
  destruct (negb (String.eqb (a_status b) "active") || a_triggered b); [exact Hinv|].
  destruct (ev b) as [[]|]; [|exact Hinv|exact Hinv].
  apply triggerAlert_active_triggered. exact Hinv.
Qed.

Lemma reachable_active_triggered (s : alertService) :
  reachable s ->
  forall k r, In (k, r) (activeAlerts s) ->
    exists a, heap s !! r = Some a /\ a_triggered a = true.
Proof.
  unfold reachable. intros H.
  assert (H0 : forall k r, In (k, r) (activeAlerts emptyService) ->
                 exists a, heap emptyService !! r = Some a /\ a_triggered a = true).
  { intros k r []. }
  induction H as [|s1 s2 s3 H12 _ IH]; [exact H0|]. apply IH.
  destruct H12 as [alertId now d s|alertId s|ev now s].
  - intros k r Hin. destruct (H0 k r Hin) as (a & Ha & Ht).
    exists a. split; [|exact Ht]. simpl. apply lookup_app_l_Some. exact Ha.
  - unfold deleteAlert in *.
    destruct (map_delete String.eqb alertId (alerts s)) as [b m]. exact H0.
  - unfold checkAlerts. apply checkPass_active_triggered. exact H0.
Qed.

(** On a registry built by the service, [getActiveAlerts] returns only
    alerts that have been triggered. *)
Theorem getActiveAlerts_only_triggered (address : string) (s : alertService)
  (l : list alert) :
  reachable s -> getActiveAlerts address s = Some l ->
  Forall (fun a => a_triggered a = true) l.
Proof.
  intros Hr Hl. apply List.Forall_forall. intros a Ha.
  destruct (collectByAddress_from address (heap s) (activeAlerts s) l Hl a Ha)
    as (k & r & Hin & Hra).
  destruct (reachable_active_triggered s Hr k r Hin) as (a' & Ha' & Ht).
  rewrite Hra in Ha'. injection Ha' as <-. exact Ht.
Qed.

Lemma getActiveAlerts_only_triggered_witness :
  (reachable sampleTriggered /\
   getActiveAlerts "0xabc" sampleTriggered =
     Some (match heap sampleTriggered with a :: _ => [a] | [] => [] end)) /\
  Forall (fun a => a_triggered a = true)
    (match heap sampleTriggered with a :: _ => [a] | [] => [] end).
Proof.
  assert (H : reachable sampleTriggered /\
   getActiveAlerts "0xabc" sampleTriggered =
     Some (match heap sampleTriggered with a :: _ => [a] | [] => [] end)).
  { split; [|reflexivity].
    unfold reachable, sampleTriggered. eapply rtc_l; [apply step_create|].
    apply rtc_once. apply step_check. }
  split; [exact H|]. exact (getActiveAlerts_only_triggered _ _ _ (proj1 H) (proj2 H)).
Defined.

Lemma map_set_fresh {V} (k : string) (v : V) (m : list (string * V)) :
  map_get String.eqb k m = None -> map_set String.eqb k v m = m ++ [(k, v)].
Proof.
  induction m as [|[k' v'] m IH]; simpl; intros H; [reflexivity|].
  destruct (String.eqb k k'); [discriminate|]. rewrite (IH H). reflexivity.
Qed.

Lemma collectByAddress_heap_ext {K} (address : string) (hp hp' : list alert)
  (m : list (K * nat)) :
  (forall k r, In (k, r) m -> hp !! r = hp' !! r) ->
  collectByAddress address hp m = collectByAddress address hp' m.
Proof.
  induction m as [|[k r] m IH]; intros H; [reflexivity|]. cbn [collectByAddress].
  rewrite (H k r (or_introl eq_refl)).
  rewrite IH by (intros k' r' Hin; apply (H k' r'); right; exact Hin).
  reflexivity.
Qed.

Lemma collectByAddress_app {K} (address : string) (hp : list alert)
  (m1 m2 : list (K * nat)) (l1 : list alert) :
  collectByAddress address hp m1 = Some l1 ->
  collectByAddress address hp (m1 ++ m2) =
    option_map (app l1) (collectByAddress address hp m2).
Proof.
  revert l1. induction m1 as [|[k r] m1 IH]; intros l1 H; cbn [collectByAddress app] in *.
  - injection H as <-. destruct (collectByAddress address hp m2); reflexivity.
  - destruct (hp !! r) as [b|]; [|exact (IH l1 H)].
    destruct (addressMatches address b) as [[]|], (collectByAddress address hp m1)
      as [rest|]; try discriminate; injection H as <-; rewrite (IH rest eq_refl);
      destruct (collectByAddress address hp m2); reflexivity.
Qed.

(** On a registry built by the service, creating an alert under a new id
    with a string address adds the new alert at the end of the
    [getAlertsByAddress] answer for every address equal to it up to case,
    and leaves the answer for the other addresses as it was. *)
Theorem createAlert_then_getAlertsByAddress (alertId now address x : string)
  (d : alertData) (s : alertService) (l : list alert) :
  reachable s -> map_get String.eqb alertId (alerts s) = None ->
  d_address d = Some (JString x) -> getAlertsByAddress address s = Some l ->
  let '(s', r) := createAlert alertId now d s in
  exists a, heap s' !! r = Some a /\
    getAlertsByAddress address s' =
      Some (l ++ if String.eqb (toLowerCase x) (toLowerCase address) then [a] else []).
Proof.
  intros Hr Hfresh Hx Hl.
  destruct (reachable_alerts_wf s Hr) as [_ Hlt].
  unfold createAlert. cbv zeta.
  eexists. split.
  - cbn [heap]. rewrite lookup_app_r by lia. rewrite Nat.sub_diag. reflexivity.
  - unfold getAlertsByAddress. cbn [heap alerts].
    rewrite map_set_fresh by exact Hfresh.
    unfold getAlertsByAddress in Hl.
    rewrite (collectByAddress_app address _ (alerts s) _ l).
    2: { rewrite <- Hl. apply collectByAddress_heap_ext.
         intros k r Hin. apply lookup_app_l.
         apply Hlt. apply (in_map snd _ _ Hin). }
    cbn [collectByAddress]. rewrite lookup_app_r by lia. rewrite Nat.sub_diag.
    cbn [lookup list_lookup]. unfold addressMatches. cbn [a_address prop].
    rewrite Hx. cbn [default].
    simpl. destruct (String.eqb (toLowerCase x) (toLowerCase address)); simpl;
      rewrite ?app_nil_r; reflexivity.
Qed.

Lemma createAlert_then_getAlertsByAddress_witness :
  (reachable sampleTwoAlerts /\
   map_get String.eqb "alert_3" (alerts sampleTwoAlerts) = None /\
   d_address (samplePriceAlert "0xABC") = Some (JString "0xABC") /\
   getAlertsByAddress "0xabc" sampleTwoAlerts =
     Some (match heap sampleTwoAlerts with a :: _ => [a] | [] => [] end)) /\
  let '(s', r) := createAlert "alert_3" "t2" (samplePriceAlert "0xABC") sampleTwoAlerts in
  exists a, heap s' !! r = Some a /\
    getAlertsByAddress "0xabc" s' =
      Some ((match heap sampleTwoAlerts with a :: _ => [a] | [] => [] end) ++
            if String.eqb (toLowerCase "0xABC") (toLowerCase "0xabc") then [a] else []).
Proof.
  assert (H : reachable sampleTwoAlerts /\
   map_get String.eqb "alert_3" (alerts sampleTwoAlerts) = None /\
   d_address (samplePriceAlert "0xABC") = Some (JString "0xABC") /\
   getAlertsByAddress "0xabc" sampleTwoAlerts =
     Some (match heap sampleTwoAlerts with a :: _ => [a] | [] => [] end)).
  { split; [|split; [reflexivity|split; reflexivity]].
    unfold reachable, sampleTwoAlerts. eapply rtc_l; [apply step_create|].
    apply rtc_once. apply step_create. }
  split; [exact H|]. destruct H as (H1 & H2 & H3 & H4).
  exact (createAlert_then_getAlertsByAddress "alert_3" "t2" "0xabc" "0xABC" _ _ _
           H1 H2 H3 H4).
Defined.

(** ** Evaluating alerts *)

Lemma checkOne_untouched (ev : alert -> outcome) (now : string) (s : alertService)
  (log : list (string * outcome)) (k : string) (r : nat) (a : alert) :
  heap s !! r = Some a -> ev a <> Evaluated true ->
  heap (checkOne ev now (s, log) (k, r)).1 !! r = Some a.
Proof.
  intros Ha Hev. unfold checkOne. rewrite Ha.
  destruct (negb (String.eqb (a_status a) "active") || a_triggered a); [exact Ha|].
  destruct (ev a) as [[]|]; [congruence|exact Ha|exact Ha].
Qed.

Lemma checkPass_untouched (ev : alert -> outcome) (now : string)
  (entries : list (string * nat)) (s : alertService)
  (log : list (string * outcome)) (k : string) (r : nat) (a : alert) :
  List.NoDup (map snd entries) -> In (k, r) entries ->
  heap s !! r = Some a -> ev a <> Evaluated true ->
  heap (fold_left (checkOne ev now) entries (s, log)).1 !! r = Some a.
Proof.
  revert s log. induction entries as [|[k' r'] rest IH]; intros s log Hnd Hin Ha Hev;
    [destruct Hin|].
  inversion Hnd as [|? ? Hr Hnd']; subst. simpl in Hr. cbn [fold_left].
  destruct (checkOne_spec ev now s log k' r') as (Hoth & _ & _).
  pose proof (checkOne_untouched ev now s log k' r' a) as Hun.
  destruct (checkOne ev now (s, log) (k', r')) as [s1 log1] eqn:E1.
  simpl in Hoth, Hun.
  destruct Hin as [Eq|Hin].
  - injection Eq as <- <-.
    destruct (checkPass_spec ev now rest s1 log1 Hnd') as (_ & _ & Hnot).
    rewrite Hnot by exact Hr. exact (Hun Ha Hev).
  - assert (Hne : r <> r').
    { intros ->. apply Hr. apply (in_map snd _ _ Hin). }
    apply (IH s1 log1 Hnd' Hin); [|exact Hev]. rewrite Hoth by exact Hne. exact Ha.
Qed.

(** Whatever the data provider answers, an alert whose [type] is none of
    ['PRICE'], ['RISK'], ['BALANCE'] and ['TRANSACTION'] is left unchanged
    by a pass of [checkAlerts] with [evaluateAlert]: it never triggers. *)
Theorem unknown_type_never_triggered (P : auraProvider) (J : jsOps)
  (now : string) (s : alertService) (k : string) (r : nat) (a : alert) :
  reachable s -> In (k, r) (alerts s) -> heap s !! r = Some a ->
  (forall ty, In ty ["PRICE"; "RISK"; "BALANCE"; "TRANSACTION"] ->
     strictEquals (a_type a) (JString ty) = false) ->
  heap (checkAlerts (fun a => Evaluated (evaluateAlert P J a)) now s).1 !! r
    = Some a.
Proof.
  intros Hreach Hin Ha Hty.
  destruct (reachable_alerts_wf s Hreach) as [Hnd _].
  unfold checkAlerts. apply (checkPass_untouched _ _ _ _ _ k r a Hnd Hin Ha).
  unfold evaluateAlert.
  rewrite !Hty by (simpl; tauto). discriminate.
Qed.

Lemma unknown_type_never_triggered_witness :
  let s := fst (createAlert "alert_1" "t0" sampleSwapAlert emptyService) in
  let a := mkAlert (JString "alert_1") (JString "0xabc") (JString "SWAP")
             (JString "ABOVE") (JNumber (Fin 1)) (JString "AURA") "active" false
             "t0" None in
  (reachable s /\ In ("alert_1", 0%nat) (alerts s) /\ heap s !! 0%nat = Some a /\
   (forall ty, In ty ["PRICE"; "RISK"; "BALANCE"; "TRANSACTION"] ->
      strictEquals (a_type a) (JString ty) = false)) /\
  heap (checkAlerts (fun a => Evaluated (evaluateAlert sampleProvider sampleOps a))
          "t1" s).1 !! 0%nat = Some a.
Proof.
  cbv zeta.
  assert (H : reachable (fst (createAlert "alert_1" "t0" sampleSwapAlert emptyService)) /\
    In ("alert_1", 0%nat) (alerts (fst (createAlert "alert_1" "t0" sampleSwapAlert emptyService))) /\
    heap (fst (createAlert "alert_1" "t0" sampleSwapAlert emptyService)) !! 0%nat =
      Some (mkAlert (JString "alert_1") (JString "0xabc") (JString "SWAP")
             (JString "ABOVE") (JNumber (Fin 1)) (JString "AURA") "active" false
             "t0" None) /\
    (forall ty, In ty ["PRICE"; "RISK"; "BALANCE"; "TRANSACTION"] ->
      strictEquals (a_type (mkAlert (JString "alert_1") (JString "0xabc") (JString "SWAP")
             (JString "ABOVE") (JNumber (Fin 1)) (JString "AURA") "active" false
             "t0" None)) (JString ty) = false)).
  { split; [apply rtc_once; apply step_create|].
    split; [left; reflexivity|]. split; [reflexivity|].
    intros ty Hty. simpl in Hty.
    destruct Hty as [<-|[<-|[<-|[<-|[]]]]]; reflexivity. }
  split; [exact H|]. destruct H as (H1 & H2 & H3 & H4).
  exact (unknown_type_never_triggered sampleProvider sampleOps "t1" _ _ _ _ H1 H2 H3 H4).
Defined.

Lemma find_all_false {A} (f : A -> bool) (l : list A) :
  (forall x, In x l -> f x = false) -> List.find f l = None.
Proof.
  induction l as [|x l IH]; intros H; [reflexivity|]. simpl.
  rewrite (H x (or_introl eq_refl)). apply IH. intros y Hy. apply H. right. exact Hy.
Qed.

(** A BALANCE alert never fires while no holding of the address has a
    [symbol] strictly equal to the alert's [token] (the match is
    case-sensitive), whatever its condition and value. *)
Theorem balance_alert_token_not_held (P : auraProvider) (J : jsOps) (a : alert) :
  a_type a = JString "BALANCE" ->
  (forall t, In t (getTokenBalances P (a_address a)) ->
     strictEquals (JString (symbol t)) (a_token a) = false) ->
  evaluateAlert P J a = false.
Proof.
  intros Hty Hnone. unfold evaluateAlert. rewrite Hty. cbn [strictEquals sameValueZero].
  change (String.eqb "BALANCE" "PRICE") with false.
  change (String.eqb "BALANCE" "RISK") with false.
  change (String.eqb "BALANCE" "BALANCE") with true. cbv iota.
  unfold evaluateBalanceAlert. rewrite find_all_false by exact Hnone. reflexivity.
Qed.

Lemma balance_alert_token_not_held_witness :
  let a := mkAlert (JString "alert_1") (JString "0xabc") (JString "BALANCE")
             (JString "ABOVE") (JNumber (Fin 1)) (JString "aura") "active" false
             "t0" None in
  (a_type a = JString "BALANCE" /\
   (forall t, In t (getTokenBalances sampleHoldings (a_address a)) ->
      strictEquals (JString (symbol t)) (a_token a) = false)) /\
  evaluateAlert sampleHoldings sampleOps a = false.
Proof.
  cbv zeta.
  assert (H : a_type (mkAlert (JString "alert_1") (JString "0xabc") (JString "BALANCE")
             (JString "ABOVE") (JNumber (Fin 1)) (JString "aura") "active" false
             "t0" None) = JString "BALANCE" /\
   (forall t, In t (getTokenBalances sampleHoldings (a_address (mkAlert (JString "alert_1")
             (JString "0xabc") (JString "BALANCE")
             (JString "ABOVE") (JNumber (Fin 1)) (JString "aura") "active" false
             "t0" None))) ->
      strictEquals (JString (symbol t)) (a_token (mkAlert (JString "alert_1")
             (JString "0xabc") (JString "BALANCE")
             (JString "ABOVE") (JNumber (Fin 1)) (JString "aura") "active" false
             "t0" None)) = false)).
  { split; [reflexivity|]. intros t [<-|[]]. reflexivity. }
  split; [exact H|]. exact (balance_alert_token_not_held _ _ _ (proj1 H) (proj2 H)).
Defined.

(** A TRANSACTION alert fires exactly when the latest transaction of the
    address is dated after the alert's [createdAt] and that transaction
    scores at least 50 in [assessTransactionRisk]. *)
Theorem transaction_alert_fires_iff (P : auraProvider) (J : jsOps) (a : alert) :
  a_type a = JString "TRANSACTION" ->
  (evaluateAlert P J a = true <->
   exists tx timestamp rest q,
     getTransactions P (a_address a) = (tx, timestamp) :: rest /\
     num_gt (dateGetTime J timestamp) (dateGetTime J (JString (a_createdAt a))) = true /\
     tx_score (assessTransactionRisk tx) = Fin q /\ 50 <= q).
Proof.
  intros Hty. unfold evaluateAlert. rewrite Hty. cbn [strictEquals sameValueZero].
  change (String.eqb "TRANSACTION" "PRICE") with false.
  change (String.eqb "TRANSACTION" "RISK") with false.
  change (String.eqb "TRANSACTION" "BALANCE") with false.
  change (String.eqb "TRANSACTION" "TRANSACTION") with true. cbv iota.
  unfold evaluateTransactionAlert.
  destruct (getTransactions P (a_address a)) as [|[tx ts] rest].
  - split; [discriminate|]. intros (? & ? & ? & ? & E & _). discriminate.
  - destruct (assessTransactionRisk_points tx) as (q & Hs & _ & Hl).
    split.
    + destruct (num_gt (dateGetTime J ts) (dateGetTime J (JString (a_createdAt a))))
        eqn:Et; [|discriminate].
      intros Hlev. exists tx, ts, rest, q. split; [reflexivity|].
      split; [exact Et|]. split; [exact Hs|].
      rewrite Hl in Hlev. unfold getRiskLevel in Hlev. rewrite !num_ge_fin in Hlev.
      destruct (Qle_bool 75 q) eqn:?, (Qle_bool 50 q) eqn:?, (Qle_bool 25 q) eqn:?;
        qle_bool_props; try discriminate; lra.
    + intros (tx' & ts' & rest' & q' & E & Et & Hs' & Hq).
      injection E as <- <- <-. rewrite Et.
      rewrite Hs in Hs'. injection Hs' as <-.
      rewrite Hl. unfold getRiskLevel. rewrite !num_ge_fin.
      assert (E50 : Qle_bool 50 q = true) by (apply Qle_bool_iff; exact Hq).
      rewrite E50. destruct (Qle_bool 75 q); reflexivity.
Qed.

Lemma transaction_alert_fires_iff_witness :
  let a := mkAlert (JString "alert_1") (JString "0xabc") (JString "TRANSACTION")
             (JString "NEW") (JNumber (Fin 1)) JUndefined "active" false
             "t0" None in
  a_type a = JString "TRANSACTION" /\
  (evaluateAlert sampleProvider sampleOps a = true <->
   exists tx timestamp rest q,
     getTransactions sampleProvider (a_address a) = (tx, timestamp) :: rest /\
     num_gt (dateGetTime sampleOps timestamp)
       (dateGetTime sampleOps (JString (a_createdAt a))) = true /\
     tx_score (assessTransactionRisk tx) = Fin q /\ 50 <= q).
Proof.
  cbv zeta.
  assert (H : a_type (mkAlert (JString "alert_1") (JString "0xabc") (JString "TRANSACTION")
             (JString "NEW") (JNumber (Fin 1)) JUndefined "active" false
             "t0" None) = JString "TRANSACTION") by reflexivity.
  split; [exact H|]. exact (transaction_alert_fires_iff _ _ _ H).
Defined.

Lemma checkOne_triggers (ev : alert -> outcome) (now : string) (s : alertService)
  (log : list (string * outcome)) (k : string) (r : nat) (a : alert) :
  heap s !! r = Some a -> due s (k, r) = true -> ev a = Evaluated true ->
  heap (checkOne ev now (s, log) (k, r)).1 !! r =
    Some {| a_id := a_id a; a_address := a_address a; a_type := a_type a;
            a_condition := a_condition a; a_value := a_value a;
            a_token := a_token a; a_status := a_status a; a_triggered := true;
            a_createdAt := a_createdAt a; a_triggeredAt := Some (JString now) |}.
Proof.
  intros Ha Hdue Hev. unfold due in Hdue. simpl in Hdue. rewrite Ha in Hdue.
  apply andb_prop in Hdue as [Hact Hnt].
  unfold checkOne. rewrite Ha, Hact, Hev. destruct (a_triggered a); [discriminate|].
  cbn [negb orb fst]. unfold triggerAlert. rewrite Ha. cbn [heap].
  apply list_lookup_insert_eq. apply lookup_lt_Some with a. exact Ha.
Qed.

Lemma checkPass_triggers (ev : alert -> outcome) (now : string)
  (entries : list (string * nat)) (s : alertService)
  (log : list (string * outcome)) (k : string) (r : nat) (a : alert) :
  List.NoDup (map snd entries) -> In (k, r) entries ->
  heap s !! r = Some a -> due s (k, r) = true -> ev a = Evaluated true ->
  heap (fold_left (checkOne ev now) entries (s, log)).1 !! r =
    Some {| a_id := a_id a; a_address := a_address a; a_type := a_type a;
            a_condition := a_condition a; a_value := a_value a;
            a_token := a_token a; a_status := a_status a; a_triggered := true;
            a_createdAt := a_createdAt a; a_triggeredAt := Some (JString now) |}.
Proof.
  revert s log. induction entries as [|[k' r'] rest IH];
    intros s log Hnd Hin Ha Hdue Hev; [destruct Hin|].
  inversion Hnd as [|? ? Hr Hnd']; subst. simpl in Hr. cbn [fold_left].
  destruct (checkOne_spec ev now s log k' r') as (Hoth & _ & _).
  destruct Hin as [Eq|Hin].
  - injection Eq as -> ->.
    pose proof (checkOne_triggers ev now s log k r a Ha Hdue Hev) as Ht.
    destruct (checkOne ev now (s, log) (k, r)) as [s1 log1] eqn:E1. simpl in Ht.
    destruct (checkPass_spec ev now rest s1 log1 Hnd') as (_ & _ & Hnot).
    rewrite Hnot by exact Hr. exact Ht.
  - assert (Hne : r <> r').
    { intros ->. apply Hr. apply (in_map snd _ _ Hin). }
    destruct (checkOne ev now (s, log) (k', r')) as [s1 log1] eqn:E1.
    simpl in Hoth.
    apply (IH s1 log1 Hnd' Hin); [rewrite Hoth by exact Hne; exact Ha| |exact Hev].
    unfold due in *. simpl in *. rewrite Hoth by exact Hne. exact Hdue.
Qed.

(** In a pass of [checkAlerts] over a registry built by the service, an
    alert that is due (active, not triggered) and whose evaluation answers
    [true] ends the pass triggered, with [triggeredAt] set to the time of
    the pass and its other properties unchanged. *)
Theorem checkAlerts_triggers_due (ev : alert -> outcome) (now : string)
  (s : alertService) (k : string) (r : nat) (a : alert) :
  reachable s -> In (k, r) (alerts s) -> heap s !! r = Some a ->
  due s (k, r) = true -> ev a = Evaluated true ->
  heap (checkAlerts ev now s).1 !! r =
    Some {| a_id := a_id a; a_address := a_address a; a_type := a_type a;
            a_condition := a_condition a; a_value := a_value a;
            a_token := a_token a; a_status := a_status a; a_triggered := true;
            a_createdAt := a_createdAt a; a_triggeredAt := Some (JString now) |}.
Proof.
  intros Hreach Hin Ha Hdue Hev.
  destruct (reachable_alerts_wf s Hreach) as [Hnd _].
  exact (checkPass_triggers ev now (alerts s) s [] k r a Hnd Hin Ha Hdue Hev).
Qed.

Lemma checkAlerts_triggers_due_witness :
  let s := fst (createAlert "alert_1" "t0" (samplePriceAlert "0xabc") emptyService) in
  let a := mkAlert (JString "alert_1") (JString "0xabc") (JString "PRICE")
             (JString "ABOVE") (JNumber (Fin (3 # 2))) (JString "AURA") "active"
             false "t0" None in
  (reachable s /\ In ("alert_1", 0%nat) (alerts s) /\ heap s !! 0%nat = Some a /\
   due s ("alert_1", 0%nat) = true /\
   evaluateAlert sampleProvider sampleOps a = true) /\
  heap (checkAlerts (fun a => Evaluated (evaluateAlert sampleProvider sampleOps a))
          "t1" s).1 !! 0%nat =
    Some {| a_id := a_id a; a_address := a_address a; a_type := a_type a;
            a_condition := a_condition a; a_value := a_value a;
            a_token := a_token a; a_status := a_status a; a_triggered := true;
            a_createdAt := a_createdAt a; a_triggeredAt := Some (JString "t1") |}.
Proof.
  cbv zeta.
  assert (H : reachable (fst (createAlert "alert_1" "t0" (samplePriceAlert "0xabc") emptyService)) /\
    In ("alert_1", 0%nat) (alerts (fst (createAlert "alert_1" "t0" (samplePriceAlert "0xabc") emptyService))) /\
    heap (fst (createAlert "alert_1" "t0" (samplePriceAlert "0xabc") emptyService)) !! 0%nat =
      Some (mkAlert (JString "alert_1") (JString "0xabc") (JString "PRICE")
             (JString "ABOVE") (JNumber (Fin (3 # 2))) (JString "AURA") "active"
             false "t0" None) /\
    due (fst (createAlert "alert_1" "t0" (samplePriceAlert "0xabc") emptyService))
      ("alert_1", 0%nat) = true /\
    evaluateAlert sampleProvider sampleOps
      (mkAlert (JString "alert_1") (JString "0xabc") (JString "PRICE")
             (JString "ABOVE") (JNumber (Fin (3 # 2))) (JString "AURA") "active"
             false "t0" None) = true).
  { split; [apply rtc_once; apply step_create|].
    split; [left; reflexivity|]. split; [reflexivity|]. split; reflexivity. }
  split; [exact H|]. destruct H as (H1 & H2 & H3 & H4 & H5).
  apply (checkAlerts_triggers_due
           (fun a => Evaluated (evaluateAlert sampleProvider sampleOps a)) "t1" _ _ _ _
           H1 H2 H3 H4).
  cbv beta. rewrite H5. reflexivity.
Defined.

(** ** The alert controller *)

Lemma map_set_key_in {V} (k : string) (v : V) (m : list (string * V)) :
  In (k, v) (map_set String.eqb k v m).
Proof.
  induction m as [|[k' v'] m IH]; simpl; [left; reflexivity|].
  destruct (String.eqb_spec k k') as [->|_]; [left; reflexivity|right; exact IH].
Qed.

(** [POST /alerts] answers 400 and stores nothing when [address], [type],
    [condition] or [value] is falsy (missing, [null], [false], [0], [NaN] or
    [''], so a value of 0 is refused). Otherwise it stores the new alert
    under the generated id, with that id as its [id] (the body's own [id] is
    not passed on), the body's [address], and [triggered = false]. *)
Theorem controller_createAlert_spec (alertId now : string) (body : requestBody)
  (s : alertService) :
  (truthy (prop (b_address body)) = false \/ truthy (prop (b_type body)) = false \/
   truthy (prop (b_condition body)) = false \/ truthy (prop (b_value body)) = false ->
   controller_createAlert alertId now body s = (s, BadRequest)) /\
  (truthy (prop (b_address body)) = true -> truthy (prop (b_type body)) = true ->
   truthy (prop (b_condition body)) = true -> truthy (prop (b_value body)) = true ->
   exists s' r a, controller_createAlert alertId now body s = (s', Created r) /\
     map_get String.eqb alertId (alerts s') = Some r /\ heap s' !! r = Some a /\
     a_id a = JString alertId /\ a_address a = prop (b_address body) /\
     a_triggered a = false).
Proof.
  destruct (controller_createAlert_cases alertId now body s) as [Hbad Hok].
  split; [exact Hbad|].
  intros H1 H2 H3 H4.
  destruct (Hok H1 H2 H3 H4) as (s' & r & a & He & Hm & Ha & Hid & Had & _ & Ht & _).
  exists s', r, a. repeat split; assumption.
Qed.

Lemma controller_createAlert_spec_witness :
  let body := mkBody (Some (JString "0xabc")) (Some (JString "PRICE"))
                (Some (JString "ABOVE")) (Some (JNumber (Fin 0))) None in
  controller_createAlert "alert_1" "t0" body emptyService = (emptyService, BadRequest).
Proof.
  cbv zeta.
  apply (controller_createAlert_spec "alert_1" "t0"
    (mkBody (Some (JString "0xabc")) (Some (JString "PRICE"))
       (Some (JString "ABOVE")) (Some (JNumber (Fin 0))) None) emptyService).
  right. right. right. reflexivity.
Defined.

(** A request accepted by [POST /alerts] whose [address] is truthy but not a
    string (a number, say) is stored, and from then on [getAlertsByAddress]
    throws for every address. *)
Theorem controller_bad_address_breaks_lookups (alertId now address : string)
  (body : requestBody) (s : alertService) :
  truthy (prop (b_address body)) = true -> truthy (prop (b_type body)) = true ->
  truthy (prop (b_condition body)) = true -> truthy (prop (b_value body)) = true ->
  (forall x, prop (b_address body) <> JString x) ->
  getAlertsByAddress address (fst (controller_createAlert alertId now body s)) = None.
Proof.
  intros H1 H2 H3 H4 Hbad.
  unfold controller_createAlert. cbv zeta. rewrite H1, H2, H3, H4. cbn [negb orb].
  unfold createAlert. cbv zeta. cbn [fst].
  eapply getAlertsByAddress_bad_address.
  - cbn [alerts]. apply map_set_key_in.
  - cbn [heap]. rewrite lookup_app_r by lia. rewrite Nat.sub_diag. reflexivity.
  - cbn [a_address prop default]. exact Hbad.
Qed.

Lemma controller_bad_address_breaks_lookups_witness :
  let body := mkBody (Some (JNumber (Fin 123))) (Some (JString "PRICE"))
                (Some (JString "ABOVE")) (Some (JNumber (Fin 2))) None in
  (truthy (prop (b_address body)) = true /\ truthy (prop (b_type body)) = true /\
   truthy (prop (b_condition body)) = true /\ truthy (prop (b_value body)) = true /\
   (forall x, prop (b_address body) <> JString x)) /\
  getAlertsByAddress "0xabc"
    (fst (controller_createAlert "alert_3" "t2" body sampleTwoAlerts)) = None.
Proof.
  cbv zeta.
  assert (H : truthy (prop (b_address (mkBody (Some (JNumber (Fin 123))) (Some (JString "PRICE"))
                (Some (JString "ABOVE")) (Some (JNumber (Fin 2))) None))) = true /\
     truthy (prop (b_type (mkBody (Some (JNumber (Fin 123))) (Some (JString "PRICE"))
                (Some (JString "ABOVE")) (Some (JNumber (Fin 2))) None))) = true /\
     truthy (prop (b_condition (mkBody (Some (JNumber (Fin 123))) (Some (JString "PRICE"))
                (Some (JString "ABOVE")) (Some (JNumber (Fin 2))) None))) = true /\
     truthy (prop (b_value (mkBody (Some (JNumber (Fin 123))) (Some (JString "PRICE"))
                (Some (JString "ABOVE")) (Some (JNumber (Fin 2))) None))) = true /\
     (forall x, prop (b_address (mkBody (Some (JNumber (Fin 123))) (Some (JString "PRICE"))
                (Some (JString "ABOVE")) (Some (JNumber (Fin 2))) None)) <> JString x)).
  { split; [reflexivity|]. split; [reflexivity|]. split; [reflexivity|].
    split; [reflexivity|]. intros x. discriminate. }
  split; [exact H|]. destruct H as (H1 & H2 & H3 & H4 & H5).
  exact (controller_bad_address_breaks_lookups _ _ _ _ _ H1 H2 H3 H4 H5).
Defined.
